(** * Chart-volume forecasting: the actuals aggregator and the forecast engine

    A shallow embedding of [Run_Actuals.py] and [Run_Forecast.py] and the
    properties of the State x Month matrix they build and extend.

    Modelling conventions.
    - A pandas DataFrame is a list of column labels (the identifier column
      first) and a list of rows; a row is the content of its identifier
      cell and a finite map from month labels to cells.  A label that has
      no entry in a row's map reads as NaN, which is what pandas stores in
      a cell that was never assigned.
    - A cell is NaN, a text cell (the blank string included) that
      [pandas.to_numeric] cannot parse, or a number.
    - Numbers are exact rationals ([Qc]): float64 arithmetic is idealised,
      infinities and rounding error are left out.  [round] is Python's
      round-half-to-even.
    - Month labels are the strings of the source; their order is Python's
      string order.  [pandas.read_excel] makes the column labels of a sheet
      distinct; the statements that need it assume [NoDup (columns df)].
    - Exceptions are values of [result]; log output is reduced to the list
      of warnings that [calculate_forecasts] records. *)

From Stdlib Require Import QArith Qcanon Qround Ascii.
From stdpp Require Import gmap strings list sorting pretty numbers.

Open Scope Z_scope.

(** ** Exceptions *)

Inductive exn := ValueError | IndexError.

Inductive result (A : Type) :=
  | Ok (a : A)
  | Raise (e : exn).
Arguments Ok {A} a.
Arguments Raise {A} e.

#[global] Instance exn_eq_dec : EqDecision exn.
Proof. solve_decision. Defined.

#[global] Instance result_eq_dec {A : Type} `{EqDecision A} :
  EqDecision (result A).
Proof. solve_decision. Defined.

#[global] Instance result_ret : MRet result := λ A a, Ok a.
#[global] Instance result_bind : MBind result := λ A B f r,
  match r with Ok a => f a | Raise e => Raise e end.

(** A [for] loop whose body may raise. *)
Fixpoint for_each {A S : Type} (body : S → A → result S) (l : list A) (s : S)
  : result S :=
  match l with
  | [] => Ok s
  | x :: l' => s' ← body s x; for_each body l' s'
  end.

(** ** Numbers *)

Definition Z2Qc (z : Z) : Qc := Q2Qc (inject_Z z).

(** Python's [round(x)] on a float: nearest integer, ties to even. *)
Definition py_round (x : Qc) : Z :=
  let f := Qfloor x in
  match (x - Z2Qc f ?= Q2Qc (1 # 2))%Qc with
  | Lt => f
  | Gt => f + 1
  | Eq => if Z.even f then f else f + 1
  end.

(** Python's [max(0, x)]: [x] only when it is larger than 0. *)
Definition py_max0 (x : Qc) : Qc :=
  if Qclt_le_dec 0 x then x else 0%Qc.

(** ** Cells, rows and frames *)

Inductive cell :=
  | NaN
  | Str (s : string)
  | Num (q : Qc).

#[global] Instance cell_eq_dec : EqDecision cell.
Proof. solve_decision. Defined.

(** [pd.isna(value)] *)
Definition isna (c : cell) : bool :=
  match c with NaN => true | _ => false end.

(** [value == ''], the comparison with the empty string *)
Definition is_blank (c : cell) : bool :=
  match c with Str s => bool_decide (s = EmptyString) | _ => false end.

(** [value == 0] and [value != 0] *)
Definition is_zero (c : cell) : bool :=
  match c with Num q => bool_decide (q = 0%Qc) | _ => false end.

(** The number a cell contributes to arithmetic.  The formulas only read
    columns that went through [to_numeric(...).fillna(0)], whose cells are
    all numbers; a sum skips NaN, and text is coerced to NaN before it is
    summed, so both count as 0. *)
Definition num (c : cell) : Qc :=
  match c with Num q => q | _ => 0%Qc end.

(** One cell of [pd.to_numeric(col, errors='coerce').fillna(0)]. *)
Definition to_numeric_fillna (c : cell) : cell :=
  match c with Num q => Num q | _ => Num 0%Qc end.

Record Row := MkRow {
  state : string;
  cells : gmap string cell
}.

Record DataFrame := MkDataFrame {
  columns : list string;
  rows : list Row
}.

(** [row[col]] *)
Definition row_get (r : Row) (col : string) : cell :=
  default NaN (cells r !! col).

Definition row_set (col : string) (v : cell) (r : Row) : Row :=
  MkRow (state r) (<[col := v]> (cells r)).

(** The cell at positional row [idx] and column [col]. *)
Definition cell_at (df : DataFrame) (idx : nat) (col : string) : cell :=
  match rows df !! idx with
  | Some r => row_get r col
  | None => NaN
  end.

(** [df.at[idx, col] = v]; a label that is not yet a column is appended. *)
Definition at_set (df : DataFrame) (idx : nat) (col : string) (v : cell)
  : DataFrame :=
  MkDataFrame
    (if decide (col ∈ columns df) then columns df else columns df ++ [col])
    (alter (row_set col v) idx (rows df)).

(** [df.iterrows()]: the rows as they are when the loop starts, with their
    positions. *)
Definition iterrows (df : DataFrame) : list (nat * Row) :=
  imap (λ idx row, (idx, row)) (rows df).

(** [df[df[state_col] == name]] *)
Definition rows_named (name : string) (df : DataFrame) : list Row :=
  filter (λ r, state r = name) (rows df).

(** [frame[col].sum()] over the rows [rs]. *)
Definition column_sum (rs : list Row) (col : string) : Qc :=
  foldr (λ r acc, (num (row_get r col) + acc)%Qc) 0%Qc rs.

(** ** Month labels *)

(** Python compares strings by code point. *)
Definition label_le (s t : string) : Prop := (s <=? t)%string = true.

#[global] Instance label_le_dec s t : Decision (label_le s t) :=
  bool_eq_dec _ _.

(** [sorted(l)] and [l.sort()]. *)
Definition sorted (l : list string) : list string := merge_sort label_le l.

(** [s.split(sep)] *)
Fixpoint split (sep : Ascii.ascii) (s : string) : list string :=
  match s with
  | EmptyString => [EmptyString]
  | String c s' =>
      if decide (c = sep) then EmptyString :: split sep s'
      else match split sep s' with
           | [] => [String c EmptyString]
           | w :: ws => String c w :: ws
           end
  end.

Definition digit_value (c : Ascii.ascii) : option Z :=
  let n := Z.of_N (Ascii.N_of_ascii c) in
  if decide (48 ≤ n ≤ 57) then Some (n - 48) else None.

Fixpoint int_digits (acc : Z) (s : string) : result Z :=
  match s with
  | EmptyString => Ok acc
  | String c s' =>
      match digit_value c with
      | Some d => int_digits (10 * acc + d) s'
      | None => Raise ValueError
      end
  end.

(** [int(s)] on a plain run of ASCII digits; anything else raises.  (Python
    also accepts surrounding blanks, a sign and digit separators, which no
    month label of the pipeline has.) *)
Definition int (s : string) : result Z :=
  match s with
  | EmptyString => Raise ValueError
  | _ => int_digits 0 s
  end.

(** [year, month_num = map(int, label.split('-'))] *)
Definition parse_month (label : string) : result (Z * Z) :=
  match split "-"%char label with
  | [y; m] => year ← int y; month ← int m; Ok (year, month)
  | _ => Raise ValueError
  end.

(** ** Text *)

(** Column names are taken to be ASCII: [lower] maps the letters A-Z and
    [strip] removes the ASCII blanks. *)
Definition lower_char (c : Ascii.ascii) : Ascii.ascii :=
  let n := Ascii.N_of_ascii c in
  if decide (65 ≤ n ≤ 90)%N then Ascii.ascii_of_N (n + 32) else c.

(** [s.lower()] *)
Fixpoint lower (s : string) : string :=
  match s with
  | EmptyString => EmptyString
  | String c s' => String (lower_char c) (lower s')
  end.

Definition is_space (c : Ascii.ascii) : bool :=
  let n := Ascii.N_of_ascii c in
  bool_decide ((9 ≤ n ≤ 13)%N ∨ (28 ≤ n ≤ 32)%N).

Fixpoint lstrip (s : string) : string :=
  match s with
  | EmptyString => EmptyString
  | String c s' => if is_space c then lstrip s' else s
  end.

Fixpoint rstrip (s : string) : string :=
  match s with
  | EmptyString => EmptyString
  | String c s' =>
      match rstrip s' with
      | EmptyString => if is_space c then EmptyString else String c EmptyString
      | rest => String c rest
      end
  end.

(** [s.strip()] *)
Definition strip (s : string) : string := rstrip (lstrip s).

(** [needle in s] *)
Fixpoint contains (needle s : string) : bool :=
  String.prefix needle s
  || match s with
     | EmptyString => false
     | String _ s' => contains needle s'
     end.

Module Run_Forecast.

Definition SPECIAL_FORECAST_MONTH : string := "2025-08".

Definition get_previous_month (year month : Z) : Z * Z :=
  if decide (month = 1) then (year - 1, 12) else (year, month - 1).

(** [f"{month:02d}"]: at least two characters, padded with a zero. *)
Definition two_digits (month : Z) : string :=
  if decide (0 ≤ month ≤ 9) then "0" +:+ pretty month else pretty month.

(** [f"{year}-{month:02d}"] *)
Definition get_year_month_string (year month : Z) : string :=
  pretty year +:+ "-" +:+ two_digits month.

(** Line 124: [pd.isna(value) or value == '' or value == 0] on the TOTAL
    cell of a month. *)
Definition needs_forecast (value : cell) : bool :=
  isna value || is_blank value || is_zero value.

Definition identify_months_to_forecast (df : DataFrame)
  : result (list string * list string * list string * option string) :=
  match columns df with
  | [] => Raise IndexError
  | state_col :: _ =>
      let month_columns :=
        sorted (filter (λ col, col ≠ state_col) (columns df)) in
      let total_row := rows_named "TOTAL" df in
      let '(actual_months, forecast_months) :=
        fold_left
          (λ '(actual_months, forecast_months) month,
             match total_row with
             | [] => (actual_months, forecast_months)
             | total :: _ =>
                 let value := row_get total month in
                 if needs_forecast value
                 then (actual_months, forecast_months ++ [month])
                 else (actual_months ++ [month], forecast_months)
             end)
          month_columns ([], []) in
      let latest_actual := list.last actual_months in
      Ok (month_columns, actual_months, forecast_months, latest_actual)
  end.

(** The warnings [calculate_forecasts] logs. *)
Inductive warning :=
  | MissingRequiredData (forecast_month : string)
  | DefaultMembershipAdjustment (forecast_month : string)
  | NoMembershipRow.

(** [state in ["TOTAL", "MEMBERSHIP"]] *)
Definition reserved (name : string) : bool :=
  bool_decide (name ∈ ["TOTAL"; "MEMBERSHIP"]).

(** Lines 139-141: [df[month] = pd.to_numeric(df[month],
    errors='coerce').fillna(0)]. *)
Definition to_numeric_column (df : DataFrame) (month : string) : DataFrame :=
  MkDataFrame (columns df)
    (map (λ r, row_set month (to_numeric_fillna (row_get r month)) r)
       (rows df)).

Definition convert_months (df : DataFrame) (all_months : list string)
  : DataFrame :=
  fold_left
    (λ forecasted_df month,
       if decide (month ∈ columns forecasted_df)
       then to_numeric_column forecasted_df month
       else forecasted_df)
    all_months df.

(** Lines 202-208 and 267-273: the first TOTAL row receives the sum of the
    month over the rows that are neither TOTAL nor MEMBERSHIP. *)
Definition recalculate_total (df : DataFrame) (forecast_month : string)
  : DataFrame :=
  match list_find (λ r, state r = "TOTAL") (rows df) with
  | Some (total_idx, _) =>
      let state_data := filter (λ r, reserved (state r) = false) (rows df) in
      let total_value := column_sum state_data forecast_month in
      at_set df total_idx forecast_month (Num total_value)
  | None => df
  end.

(** Lines 158-177. *)
Definition membership_adjustment (membership_row : list Row)
    (latest_actual prev_year_same_month forecast_month : string)
  : Qc * list warning :=
  match membership_row with
  | membership :: _ =>
      let current_membership := row_get membership latest_actual in
      let prev_year_membership := row_get membership prev_year_same_month in
      if negb (is_zero prev_year_membership) && negb (isna prev_year_membership)
      then
        let membership_ratio :=
          (num current_membership / num prev_year_membership)%Qc in
        let estimated_membership :=
          (num prev_year_membership * membership_ratio)%Qc in
        ((estimated_membership / num prev_year_membership)%Qc, [])
      else (1%Qc, [DefaultMembershipAdjustment forecast_month])
  | [] => (1%Qc, [NoMembershipRow])
  end.

(** Lines 184-194: the value the new-project-year pass assigns to a row. *)
Definition special_forecast (row : Row) (prev_year_same_month : string)
    (adjustment : Qc) : cell :=
  let prev_year_value := row_get row prev_year_same_month in
  if isna prev_year_value then Num 0%Qc
  else
    let forecast_value := (num prev_year_value * adjustment)%Qc in
    let forecast_value := Z.max 0 (py_round forecast_value) in
    Num (Z2Qc forecast_value).

(** Lines 179-196: one pass over the rows for the new project year. *)
Definition special_rows (df : DataFrame)
    (prev_year_same_month forecast_month : string) (adjustment : Qc)
  : DataFrame :=
  fold_left
    (λ forecasted_df '(idx, row),
       if reserved (state row) then forecasted_df
       else at_set forecasted_df idx forecast_month
              (special_forecast row prev_year_same_month adjustment))
    (iterrows df) df.

(** Lines 227-233. *)
Definition membership_ratio (membership_row : list Row)
    (prev_month_str prev_year_month : string) : Qc :=
  match membership_row with
  | membership :: _ =>
      let current_membership := row_get membership prev_month_str in
      let prev_year_membership := row_get membership prev_year_month in
      if negb (is_zero prev_year_membership) && negb (isna prev_year_membership)
      then (num current_membership / num prev_year_membership)%Qc
      else 1%Qc
  | [] => 1%Qc
  end.

(** Lines 235-236: [df[forecast_month] = 0] for a label that is no column. *)
Definition create_column (df : DataFrame) (forecast_month : string)
  : DataFrame :=
  if decide (forecast_month ∈ columns df) then df
  else MkDataFrame (columns df ++ [forecast_month])
         (map (row_set forecast_month (Num 0%Qc)) (rows df)).

(** Lines 243-259: the value the ordinary pass assigns to a row. *)
Definition standard_forecast (row : Row)
    (prev_month_str prev_year_month prev_year_prev_month_str : string)
    (ratio : Qc) : cell :=
  let current_value := row_get row prev_month_str in
  let prev_year_value := row_get row prev_year_month in
  let prev_year_prev_month_value := row_get row prev_year_prev_month_str in
  if isna current_value || isna prev_year_value
     || isna prev_year_prev_month_value
  then Num 0%Qc
  else
    let last_year_change :=
      (num prev_year_value - num prev_year_prev_month_value)%Qc in
    let forecast_value :=
      (num current_value + last_year_change * ratio)%Qc in
    let forecast_value := py_max0 forecast_value in
    let forecast_value := py_round forecast_value in
    Num (Z2Qc forecast_value).

(** Lines 238-261: one pass over the rows for an ordinary month. *)
Definition standard_rows (df : DataFrame)
    (prev_month_str prev_year_month prev_year_prev_month_str
       forecast_month : string) (ratio : Qc) : DataFrame :=
  fold_left
    (λ forecasted_df '(idx, row),
       if reserved (state row) then forecasted_df
       else at_set forecasted_df idx forecast_month
              (standard_forecast row prev_month_str prev_year_month
                 prev_year_prev_month_str ratio))
    (iterrows df) df.

(** The body of the loop of line 145, on the frame and the warnings logged
    so far. *)
Definition forecast_one (all_months : list string) (latest_actual : string)
    (membership_row : list Row) (st : DataFrame * list warning)
    (forecast_month : string) : result (DataFrame * list warning) :=
  let '(forecasted_df, log) := st in
  '(forecast_year, forecast_month_num) ← parse_month forecast_month;
  if decide (forecast_month = SPECIAL_FORECAST_MONTH) then
    let prev_year_same_month := "2024-08" in
    if decide (prev_year_same_month ∈ all_months) then
      let '(adjustment, warnings) :=
        membership_adjustment membership_row latest_actual
          prev_year_same_month forecast_month in
      let forecasted_df :=
        special_rows forecasted_df prev_year_same_month forecast_month
          adjustment in
      Ok (recalculate_total forecasted_df forecast_month, log ++ warnings)
    else Ok (forecasted_df, log ++ [MissingRequiredData forecast_month])
  else
    let '(prev_year, prev_month_num) :=
      get_previous_month forecast_year forecast_month_num in
    let prev_month_str := get_year_month_string prev_year prev_month_num in
    let prev_year_month :=
      get_year_month_string (forecast_year - 1) forecast_month_num in
    let '(prev_year_prev_year, prev_year_prev_month_num) :=
      get_previous_month (forecast_year - 1) forecast_month_num in
    let prev_year_prev_month_str :=
      get_year_month_string prev_year_prev_year prev_year_prev_month_num in
    let required_months :=
      [prev_month_str; prev_year_month; prev_year_prev_month_str] in
    if forallb (λ month, bool_decide (month ∈ all_months)) required_months then
      let ratio :=
        membership_ratio membership_row prev_month_str prev_year_month in
      let forecasted_df := create_column forecasted_df forecast_month in
      let forecasted_df :=
        standard_rows forecasted_df prev_month_str prev_year_month
          prev_year_prev_month_str forecast_month ratio in
      Ok (recalculate_total forecasted_df forecast_month, log)
    else Ok (forecasted_df, log ++ [MissingRequiredData forecast_month]).

(** Lines 274-276: the identifier column first, the months in order. *)
Definition reorder_columns (state_col : string) (df : DataFrame) : DataFrame :=
  MkDataFrame
    (state_col :: sorted (filter (λ col, col ≠ state_col) (columns df)))
    (rows df).

(** [main] calls this with the lists [identify_months_to_forecast] returned
    and a [latest_actual] that is a month label: every label looked up is
    then a column of the frame and no month is the identifier column, so
    the KeyError of a lookup outside the columns is not modelled. *)
Definition calculate_forecasts (df : DataFrame)
    (all_months forecast_months : list string) (latest_actual : string)
  : result (DataFrame * list warning) :=
  match columns df with
  | [] => Raise IndexError
  | state_col :: _ =>
      let forecasted_df := convert_months df all_months in
      let membership_row := rows_named "MEMBERSHIP" forecasted_df in
      '(forecasted_df, log) ←
        for_each (forecast_one all_months latest_actual membership_row)
          (sorted forecast_months) (forecasted_df, []);
      Ok (reorder_columns state_col forecasted_df, log)
  end.

(** [read_summary_file]: the State Summary sheet as [pd.read_excel] returns
    it.  [sheet] is the frame the first stage wrote; a cell it wrote as the
    empty string is an empty cell of the workbook and reads as NaN. *)
Definition read_summary_file (sheet : DataFrame) : DataFrame :=
  MkDataFrame (columns sheet)
    (map (λ r, MkRow (state r)
                 ((λ c, if is_blank c then NaN else c) <$> cells r))
       (rows sheet)).

(** What a run of the stage leaves behind: the flag [main] returns, the
    forecast artifact when one was written, the warnings logged. *)
Record Outcome := MkOutcome {
  success : bool;
  written : option DataFrame;
  warnings : list warning
}.

(** [main]; [input_file] is [None] when the actuals artifact does not
    exist.  Every exception is caught and turned into a failed run;
    [write_forecast_excel] is taken to succeed. *)
Definition main (input_file : option DataFrame) : Outcome :=
  match input_file with
  | None => MkOutcome false None []
  | Some state_df =>
      match identify_months_to_forecast state_df with
      | Raise _ => MkOutcome false None []
      | Ok (all_months, actual_months, forecast_months, latest_actual) =>
          match forecast_months with
          | [] => MkOutcome true None []
          | _ :: _ =>
              match latest_actual with
              | None | Some EmptyString => MkOutcome false None []
              | Some latest_actual =>
                  match calculate_forecasts state_df all_months
                          forecast_months latest_actual with
                  | Raise _ => MkOutcome false None []
                  | Ok (forecasted_df, log) =>
                      MkOutcome true (Some forecasted_df) log
                  end
              end
          end
      end
  end.

(** The cell formats [write_forecast_excel] creates for the data cells. *)
Inductive cell_format :=
  | actual_format
  | forecast_format
  | august_format
  | total_actual_format
  | total_forecast_format
  | total_august_format
  | membership_format.

#[global] Instance cell_format_eq_dec : EqDecision cell_format.
Proof. solve_decision. Defined.

(** Lines 347-362: the format by the kind of row and of month. *)
Definition choose_format (state month : string) (actual_months : list string)
  : cell_format :=
  if decide (state = "TOTAL") then
    if decide (month ∈ actual_months) then total_actual_format
    else if decide (month = SPECIAL_FORECAST_MONTH) then total_august_format
    else total_forecast_format
  else if decide (state = "MEMBERSHIP") then membership_format
  else
    if decide (month ∈ actual_months) then actual_format
    else if decide (month = SPECIAL_FORECAST_MONTH) then august_format
    else forecast_format.

(** What a data cell of the sheet receives. *)
Inductive written_cell :=
  | write_string (text : string)
  | write_number (numeric_value : Qc).

#[global] Instance written_cell_eq_dec : EqDecision written_cell.
Proof. solve_decision. Defined.

(** Lines 364-371; [float] rejects the text of a text cell, as
    [pandas.to_numeric] does. *)
Definition write_value (value : cell) : written_cell :=
  if isna value || is_blank value then write_string "N/A"
  else match value with
       | Num numeric_value => write_number numeric_value
       | Str text => write_string text
       | NaN => write_string "N/A"
       end.

Record SheetCell := MkSheetCell {
  sheet_month : string;
  sheet_format : cell_format;
  sheet_value : written_cell
}.

#[global] Instance sheet_cell_eq_dec : EqDecision SheetCell.
Proof. solve_decision. Defined.

(** Lines 335-371: the data rows of the State Forecast sheet, each with the
    name written in its first cell and the cells of the month columns.
    [forecast_months] is a parameter the body never reads. *)
Definition write_forecast_excel (df : DataFrame)
    (actual_months forecast_months : list string)
  : result (list (string * list SheetCell)) :=
  match columns df with
  | [] => Raise IndexError
  | state_col :: months =>
      Ok (map (λ '(row_idx, row),
                 (state row,
                  map (λ month,
                         MkSheetCell month
                           (choose_format (state row) month actual_months)
                           (write_value (row_get row month)))
                    months))
            (iterrows df))
  end.

End Run_Forecast.

Module Run_Actuals.

Definition start_month : string := "2023-08".
Definition end_month : string := "2026-07".

(** [pd.date_range(start + "-01", end + "-01", freq="MS")], each date
    printed as [%Y-%m]: the months from [start] to [end_], both included. *)
Definition generate_months (start end_ : string) : result (list string) :=
  '(start_year, start_num) ← parse_month start;
  '(end_year, end_num) ← parse_month end_;
  let first := 12 * start_year + (start_num - 1) in
  let last := 12 * end_year + (end_num - 1) in
  Ok (map (λ k, let i := first + Z.of_nat k in
                Run_Forecast.get_year_month_string (i `div` 12) (i `mod` 12 + 1))
        (seq 0 (Z.to_nat (last - first + 1)))).

Definition all_months : list string :=
  Eval vm_compute in
    match generate_months start_month end_month with
    | Ok months => months
    | Raise _ => []
    end.

(** One source workbook that was read and has the three required columns:
    the month its file name starts with and its (State, Chartcount)
    records. *)
Record Extract := MkExtract {
  file_month : string;
  records : list (string * cell)
}.

(** [df.groupby("State")["Chartcount"].sum()] after the counts went through
    [to_numeric(...).fillna(0)]; the groups come in key order. *)
Definition group_sums (recs : list (string * cell)) : list (string * Qc) :=
  map (λ st, (st, foldr (λ '(s, c) acc,
                           if decide (s = st)
                           then (num (to_numeric_fillna c) + acc)%Qc
                           else acc) 0%Qc recs))
    (sorted (remove_dups (map fst recs))).

(** [state_data[state][month] = count] on the insertion-ordered dictionary
    of per-state dictionaries; a month without entry is [None]. *)
Fixpoint assign (state_data : list (string * gmap string Qc))
    (st month : string) (count : Qc) : list (string * gmap string Qc) :=
  match state_data with
  | [] => [(st, {[month := count]})]
  | (s, by_month) :: rest =>
      if decide (s = st) then (s, <[month := count]> by_month) :: rest
      else (s, by_month) :: assign rest st month count
  end.

(** Lines 82-110. *)
Definition process_files (extracts : list Extract)
  : list (string * gmap string Qc) :=
  fold_left
    (λ state_data file,
       if decide (file_month file ∈ all_months) then
         fold_left (λ state_data '(st, count),
                      assign state_data st (file_month file) count)
           (group_sums (records file)) state_data
       else state_data)
    extracts [].

(** Lines 113-115: one row per state, [None] shown as the blank string. *)
Definition state_rows (state_data : list (string * gmap string Qc))
  : list Row :=
  map (λ '(st, by_month),
         MkRow st
           (list_to_map
              (map (λ month, (month, match by_month !! month with
                                     | Some count => Num count
                                     | None => Str EmptyString
                                     end)) all_months)))
    state_data.

(** Lines 164-165. *)
Definition totals_row (state_df : list Row) : Row :=
  MkRow "TOTAL"
    (list_to_map
       (map (λ month, (month, Num (column_sum state_df month))) all_months)).

(** Lines 117-131 and 167-169; [mem_ref] is the Total line of the membership
    reference, [None] when the reference cannot be loaded. *)
Definition membership_row (mem_ref : option (gmap string cell)) : Row :=
  MkRow "MEMBERSHIP"
    (list_to_map
       (map (λ month, (month, match mem_ref with
                              | Some reference => default NaN (reference !! month)
                              | None => Num 0%Qc
                              end)) all_months)).

(** Line 171: the sheet [main] writes as the actuals artifact. *)
Definition final_df (extracts : list Extract)
    (mem_ref : option (gmap string cell)) : DataFrame :=
  let state_df := state_rows (process_files extracts) in
  MkDataFrame ("State" :: all_months)
    (state_df ++ [totals_row state_df; membership_row mem_ref]).

(** [standardize_columns]: the new name of one column, and of all. *)
Definition standardize_name (col : string) : string :=
  let col_lower := lower (strip col) in
  if contains "vendor" col_lower then "Ret_Vendor"
  else if contains "chart" col_lower && contains "count" col_lower
  then "Chartcount"
  else if contains "state" col_lower then "State"
  else col.

Definition standardize_columns (cols : list string) : list string :=
  map standardize_name cols.

(** Line 99: [{"Ret_Vendor", "Chartcount", "State"}.issubset(df.columns)] *)
Definition has_required_columns (cols : list string) : bool :=
  bool_decide (["Ret_Vendor"; "Chartcount"; "State"] ⊆ cols).

(** [get_project_color], with the colours of [project_colors]. *)
Definition get_project_color (month : string) : string :=
  if bool_decide (label_le "2023-08" month ∧ label_le month "2024-07")
  then "#FFF2CC"
  else if bool_decide (label_le "2024-08" month ∧ label_le month "2025-07")
  then "#D9EAD3"
  else if bool_decide (label_le "2025-08" month ∧ label_le month "2026-07")
  then "#D0E0E3"
  else "#F4CCCC".

(** [main]: the flag it returns and the sheet it writes.  The source
    workbooks that cannot be read or lack a column are not among
    [extracts]; writing the workbook is taken to succeed. *)
Definition main (extracts : list Extract)
    (mem_ref : option (gmap string cell)) : bool * option DataFrame :=
  (true, Some (final_df extracts mem_ref)).

End Run_Actuals.

Import Run_Forecast.

(** ** Vocabulary of the properties *)

(** A row after a pass assigned [f row] to its [forecast_month] cell,
    unless it is a TOTAL or MEMBERSHIP row. *)
Definition assign_row (forecast_month : string) (f : Row → cell) (r : Row)
  : Row :=
  if reserved (state r) then r else row_set forecast_month (f r) r.

(** The frame after one month was forecast with the per-row value [f]. *)
Definition write_month (df : DataFrame) (forecast_month : string)
    (f : Row → cell) : DataFrame :=
  recalculate_total
    (MkDataFrame (columns df) (map (assign_row forecast_month f) (rows df)))
    forecast_month.

(** The labels the loop of [calculate_forecasts] visits before it reaches
    [P]. *)
Fixpoint months_before (P : string) (months : list string) : list string :=
  match months with
  | [] => []
  | m :: months' => if decide (m = P) then [] else m :: months_before P months'
  end.

(** The frame (and the warnings) at the moment the loop reaches [P]. *)
Definition frame_before (df : DataFrame) (all_months forecast_months : list string)
    (latest_actual P : string) : result (DataFrame * list warning) :=
  let converted := convert_months df all_months in
  for_each
    (forecast_one all_months latest_actual (rows_named "MEMBERSHIP" converted))
    (months_before P (sorted forecast_months)) (converted, []).

(** The ratio MEMBERSHIP[numerator] / MEMBERSHIP[denominator] of a frame:
    1 unless the denominator is a number other than 0. *)
Definition membership_quotient (df : DataFrame) (numerator denominator : string)
  : Qc :=
  match rows_named "MEMBERSHIP" df with
  | membership :: _ =>
      match row_get membership denominator with
      | Num d =>
          if decide (d = 0%Qc) then 1%Qc
          else (num (row_get membership numerator) / d)%Qc
      | _ => 1%Qc
      end
  | [] => 1%Qc
  end.

(** The three reference labels of the ordinary formula for [(year, month)]. *)
Definition prev_label (year month : Z) : string :=
  get_year_month_string (get_previous_month year month).1
    (get_previous_month year month).2.
Definition same_month_last_year_label (year month : Z) : string :=
  get_year_month_string (year - 1) month.
Definition prev_of_last_year_label (year month : Z) : string :=
  get_year_month_string (get_previous_month (year - 1) month).1
    (get_previous_month (year - 1) month).2.

(** The value of the ordinary formula for the row at [idx], read off the
    frame [df]:
    round(max(0, region[prev] + (region[same] - region[prevly]) * ratio)). *)
Definition standard_formula (df : DataFrame) (idx : nat)
    (prev same prevly : string) : cell :=
  Num (Z2Qc (py_round (py_max0
    (num (cell_at df idx prev)
     + (num (cell_at df idx same) - num (cell_at df idx prevly))
       * membership_quotient df prev same)%Qc))).

(** The value of the new-cycle formula for the row at [idx]:
    round(max(0, region[same] * MEMBERSHIP[latest] / MEMBERSHIP[same])). *)
Definition new_cycle_formula (df : DataFrame) (idx : nat)
    (same latest : string) : cell :=
  Num (Z2Qc (py_round (py_max0
    (num (cell_at df idx same) * membership_quotient df latest same)%Qc))).

(** The reference months the iteration for [P] asks for are month columns. *)
Definition has_references (all_months : list string) (P : string) : Prop :=
  match parse_month P with
  | Ok (year, month) =>
      if decide (P = SPECIAL_FORECAST_MONTH) then "2024-08" ∈ all_months
      else prev_label year month ∈ all_months
           ∧ same_month_last_year_label year month ∈ all_months
           ∧ prev_of_last_year_label year month ∈ all_months
  | Raise _ => False
  end.

(** Every cell of the month columns [months] holds a number. *)
Definition numeric_on (months : list string) (df : DataFrame) : Prop :=
  ∀ r col, r ∈ rows df → col ∈ months → ∃ q, row_get r col = Num q.

(** The rows that are neither TOTAL nor MEMBERSHIP. *)
Definition ordinary_rows (df : DataFrame) : list Row :=
  filter (λ r, reserved (state r) = false) (rows df).

(** TOTAL[month] is the sum of the month over the ordinary regions; the
    TOTAL row is the first row of that name, the one the code reads and
    writes. *)
Definition total_invariant_at (df : DataFrame) (month : string) : Prop :=
  ∀ total_idx total,
    list_find (λ r, state r = "TOTAL") (rows df) = Some (total_idx, total) →
    num (row_get total month) = column_sum (ordinary_rows df) month.

Definition total_invariant (df : DataFrame) : Prop :=
  ∀ month, month ∈ columns df → total_invariant_at df month.

(** Two rows with the same identifier and the same number in [month]. *)
Definition same_values (month : string) (r r' : Row) : Prop :=
  state r' = state r ∧ num (row_get r' month) = num (row_get r month).

(** What the loop leaves of a row when it only writes to [months]. *)
Definition row_frame (months : list string) (r r' : Row) : Prop :=
  state r' = state r
  ∧ (state r = "MEMBERSHIP" → r' = r)
  ∧ (∀ col, col ∉ months → row_get r' col = row_get r col)
  ∧ (∀ col q, row_get r col = Num q → ∃ q', row_get r' col = Num q').

Definition frame_rel (months : list string) (df df' : DataFrame) : Prop :=
  columns df' = columns df ∧ Forall2 (row_frame months) (rows df) (rows df').

(** What is checked, by computation, of the decimal notation of one
    four-digit year. *)
Definition year_check (y : Z) : bool :=
  (bool_decide (y = 9999) || bool_decide (label_le (pretty y) (pretty (y + 1))))
  && bool_decide (String.length (pretty y) = 4%nat)
  && bool_decide (int (pretty y) = Ok y)
  && bool_decide (split "-"%char (pretty y) = [pretty y]).

(** A row of the converted frame against the row it comes from. *)
Definition converted_row (all_months cols : list string) (r r' : Row) : Prop :=
  state r' = state r
  ∧ ∀ col, row_get r' col
           = if decide (col ∈ all_months ∧ col ∈ cols)
             then to_numeric_fillna (row_get r col) else row_get r col.

(** The sum of the counts of the records of [st], as [group_sums] takes
    it. *)
Definition state_sum (recs : list (string * cell)) (st : string) : Qc :=
  foldr (λ '(s, c) acc,
           if decide (s = st) then (num (to_numeric_fillna c) + acc)%Qc
           else acc) 0%Qc recs.

(** [state_data[st][month]], [None] for a state or a month without
    entry. *)
Fixpoint count_of (state_data : list (string * gmap string Qc))
    (st month : string) : option Qc :=
  match state_data with
  | [] => None
  | (s, by_month) :: rest =>
      if decide (s = st) then by_month !! month else count_of rest st month
  end.

(** The count the sheet shows for [(st, month)]: that of the last workbook
    of the month, among those in the window, that has a record of [st]. *)
Fixpoint latest_count (extracts : list Run_Actuals.Extract)
    (st month : string) : option Qc :=
  match extracts with
  | [] => None
  | file :: rest =>
      match latest_count rest st month with
      | Some count => Some count
      | None =>
          if decide (Run_Actuals.file_month file = month
                     ∧ month ∈ Run_Actuals.all_months
                     ∧ st ∈ (Run_Actuals.records file).*1)
          then Some (state_sum (Run_Actuals.records file) st)
          else None
      end
  end.

(** ** Sample frames *)

Definition sample_row (name : string) (values : list (string * cell)) : Row :=
  MkRow name (list_to_map values).

Definition count (z : Z) : cell := Num (Z2Qc z).

(** March 2025 is to be forecast from February 2025 and February and March
    2024. *)
Definition sample_standard : DataFrame :=
  MkDataFrame ["State"; "2024-02"; "2024-03"; "2025-02"; "2025-03"]
    [ sample_row "AL" [("2024-02", count 100); ("2024-03", count 120);
                       ("2025-02", count 100); ("2025-03", NaN)];
      sample_row "TX" [("2024-02", count 50); ("2024-03", count 20);
                       ("2025-02", count 10); ("2025-03", NaN)];
      sample_row "TOTAL" [("2024-02", count 150); ("2024-03", count 140);
                          ("2025-02", count 110); ("2025-03", count 0)];
      sample_row "MEMBERSHIP" [("2024-02", count 800); ("2024-03", count 900);
                               ("2025-02", count 1000); ("2025-03", NaN)] ].

(** The same months, but AL has no value for February 2025. *)
Definition sample_absent : DataFrame :=
  MkDataFrame ["State"; "2024-02"; "2024-03"; "2025-02"; "2025-03"]
    [ sample_row "AL" [("2024-02", count 100); ("2024-03", count 120);
                       ("2025-02", NaN); ("2025-03", NaN)];
      sample_row "TX" [("2024-02", count 50); ("2024-03", count 20);
                       ("2025-02", count 10); ("2025-03", NaN)];
      sample_row "TOTAL" [("2024-02", count 150); ("2024-03", count 140);
                          ("2025-02", count 10); ("2025-03", count 0)];
      sample_row "MEMBERSHIP" [("2024-02", count 800); ("2024-03", count 900);
                               ("2025-02", count 1000); ("2025-03", NaN)] ].

(** August 2025 opens the new project year; July 2025 is the latest month
    with data. *)
Definition sample_new_cycle : DataFrame :=
  MkDataFrame ["State"; "2024-08"; "2025-07"; "2025-08"]
    [ sample_row "AL" [("2024-08", count 200); ("2025-07", count 210);
                       ("2025-08", NaN)];
      sample_row "TOTAL" [("2024-08", count 200); ("2025-07", count 210);
                          ("2025-08", count 0)];
      sample_row "MEMBERSHIP" [("2024-08", count 1000); ("2025-07", count 1100);
                               ("2025-08", NaN)] ].

(** January 2025 lacks December 2023; February 2025 has all it needs. *)
Definition sample_skip : DataFrame :=
  MkDataFrame ["State"; "2024-01"; "2024-02"; "2024-12"; "2025-01"; "2025-02"]
    [ sample_row "AL" [("2024-01", count 30); ("2024-02", count 40);
                       ("2024-12", count 50); ("2025-01", NaN);
                       ("2025-02", NaN)];
      sample_row "TOTAL" [("2024-01", count 30); ("2024-02", count 40);
                          ("2024-12", count 50); ("2025-01", count 0);
                          ("2025-02", count 0)];
      sample_row "MEMBERSHIP" [("2024-01", count 10); ("2024-02", count 10);
                               ("2024-12", count 10); ("2025-01", count 10);
                               ("2025-02", count 10)] ].

(** Every month has data. *)
Definition sample_complete : DataFrame :=
  MkDataFrame ["State"; "2025-01"; "2025-02"]
    [ sample_row "AL" [("2025-01", count 3); ("2025-02", count 4)];
      sample_row "TOTAL" [("2025-01", count 3); ("2025-02", count 4)];
      sample_row "MEMBERSHIP" [("2025-01", count 10); ("2025-02", count 10)] ].

(** No month has data. *)
Definition sample_no_baseline : DataFrame :=
  MkDataFrame ["State"; "2025-01"; "2025-02"]
    [ sample_row "AL" [("2025-01", NaN); ("2025-02", NaN)];
      sample_row "TOTAL" [("2025-01", count 0); ("2025-02", NaN)];
      sample_row "MEMBERSHIP" [("2025-01", count 10); ("2025-02", count 10)] ].

(** A sheet without a TOTAL row. *)
Definition sample_no_total : DataFrame :=
  MkDataFrame ["State"; "2025-01"; "2025-02"]
    [ sample_row "AL" [("2025-01", count 3); ("2025-02", count 4)] ].

(** Two source workbooks, for August and September 2023. *)
Definition sample_extracts : list Run_Actuals.Extract :=
  [ Run_Actuals.MkExtract "2023-08"
      [("TX", count 5); ("AL", count 3); ("TX", count 7)];
    Run_Actuals.MkExtract "2023-09" [("FL", count 5); ("AL", Str "n/a")] ].

(** The months of a frame, as [main] passes them on. *)
Definition months_of (df : DataFrame) : list string :=
  match identify_months_to_forecast df with
  | Ok (all_months, _, _, _) => all_months
  | Raise _ => []
  end.
Definition actual_of (df : DataFrame) : list string :=
  match identify_months_to_forecast df with
  | Ok (_, actual_months, _, _) => actual_months
  | Raise _ => []
  end.
Definition forecast_of (df : DataFrame) : list string :=
  match identify_months_to_forecast df with
  | Ok (_, _, forecast_months, _) => forecast_months
  | Raise _ => []
  end.
Definition latest_of (df : DataFrame) : option string :=
  match identify_months_to_forecast df with
  | Ok (_, _, _, latest_actual) => latest_actual
  | Raise _ => None
  end.

(** The frame and the warnings of [calculate_forecasts] on a sample. *)
Definition forecast_sample (df : DataFrame) : DataFrame * list warning :=
  match calculate_forecasts df (months_of df) (forecast_of df)
          (default EmptyString (latest_of df)) with
  | Ok res => res
  | Raise _ => (df, [])
  end.


(** Two source workbooks of the same month. *)
Definition sample_same_month : list Run_Actuals.Extract :=
  [ Run_Actuals.MkExtract "2023-08" [("TX", count 5)];
    Run_Actuals.MkExtract "2023-08" [("TX", count 7)] ].

(** The sheet of the first stage from the sample workbooks, as the second
    stage reads it, without membership reference. *)
Definition sample_sheet : DataFrame :=
  read_summary_file (Run_Actuals.final_df sample_extracts None).

(** The row of TX in the sheet of the sample workbooks. *)
Definition sample_state_row : Row :=
  default (MkRow EmptyString ∅)
    (Run_Actuals.state_rows (Run_Actuals.process_files sample_extracts)
     !! 1%nat).

(** ** Tactics *)

Ltac by_computation := apply (bool_decide_unpack _); vm_compute; exact I.

(** * Properties *)

(** ** Rounding *)

Lemma Qfloor_Z2Qc (z : Z) : Qfloor (Z2Qc z) = z.
Proof.
  unfold Z2Qc. rewrite <- (Qfloor_Z z) at 2.
  apply Qfloor_comp. simpl. apply Qred_correct.
Qed.

Lemma Z2Qc_0 : Z2Qc 0 = 0%Qc.
Proof. apply Qc_is_canon. reflexivity. Qed.

Lemma py_round_Z2Qc (z : Z) : py_round (Z2Qc z) = z.
Proof.
  unfold py_round. rewrite Qfloor_Z2Qc.
  replace (Z2Qc z - Z2Qc z)%Qc with 0%Qc by ring.
  reflexivity.
Qed.

Lemma py_round_0 : py_round 0 = 0.
Proof. reflexivity. Qed.

Lemma py_round_floor (x : Qc) : Qfloor x ≤ py_round x ≤ Qfloor x + 1.
Proof.
  unfold py_round.
  destruct (_ ?= _)%Qc; [destruct (Z.even _) | |]; lia.
Qed.

Lemma py_round_nonneg (x : Qc) : (0 ≤ x)%Qc → 0 ≤ py_round x.
Proof.
  intros Hx. pose proof (py_round_floor x) as [Hf _].
  assert (0 ≤ Qfloor x); [|lia].
  change 0 with (Qfloor 0%Qc). by apply Qfloor_resp_le.
Qed.

Lemma py_round_nonpos (x : Qc) : (x ≤ 0)%Qc → py_round x ≤ 0.
Proof.
  intros Hx.
  assert (Hf : Qfloor x ≤ 0).
  { change 0 with (Qfloor 0%Qc). by apply Qfloor_resp_le. }
  destruct (decide (Qfloor x = 0)) as [H0|H0].
  - unfold py_round. rewrite H0, Z2Qc_0.
    replace (x - 0)%Qc with x by ring.
    assert (Hlt : (x < Q2Qc (1 # 2))%Qc).
    { eapply Qcle_lt_trans; [exact Hx|]. reflexivity. }
    pose proof (proj1 (Qclt_alt x (Q2Qc (1 # 2))) Hlt) as E. by rewrite E.
  - pose proof (py_round_floor x). lia.
Qed.

Lemma py_max0_nonneg (x : Qc) : (0 ≤ py_max0 x)%Qc.
Proof.
  unfold py_max0. destruct (Qclt_le_dec 0 x) as [H|H].
  - by apply Qclt_le_weak.
  - apply Qcle_refl.
Qed.

(** [max(0, round(x))] of the new-project-year pass and [round(max(0, x))]
    of the ordinary pass agree. *)
Lemma max_round_comm (x : Qc) : Z.max 0 (py_round x) = py_round (py_max0 x).
Proof.
  unfold py_max0. destruct (Qclt_le_dec 0 x) as [H|H].
  - apply Z.max_r, py_round_nonneg. by apply Qclt_le_weak.
  - rewrite py_round_0. apply Z.max_l. by apply py_round_nonpos.
Qed.

(** ** The order on labels *)

Lemma ascii_compare_refl (a : ascii) : (a ?= a)%char = Eq.
Proof. unfold Ascii.compare. apply N.compare_refl. Qed.

Lemma string_compare_refl (s : string) : (s ?= s)%string = Eq.
Proof. induction s as [|a s IH]; simpl; [done|]. by rewrite ascii_compare_refl. Qed.

Lemma string_compare_trans_le (s1 s2 s3 : string) :
  (s1 ?= s2)%string ≠ Gt → (s2 ?= s3)%string ≠ Gt → (s1 ?= s3)%string ≠ Gt.
Proof.
  revert s2 s3. induction s1 as [|a s1 IH]; intros [|b s2] [|c s3]; simpl;
    try done.
  unfold Ascii.compare.
  destruct (N.compare_spec (N_of_ascii a) (N_of_ascii b)) as [Hab|Hab|Hab];
    destruct (N.compare_spec (N_of_ascii b) (N_of_ascii c)) as [Hbc|Hbc|Hbc];
    destruct (N.compare_spec (N_of_ascii a) (N_of_ascii c)) as [Hac|Hac|Hac];
    try done; try lia.
  apply IH.
Qed.

#[global] Instance label_le_refl : Reflexive label_le.
Proof. intros s. unfold label_le, String.leb. by rewrite string_compare_refl. Qed.

#[global] Instance label_le_trans : Transitive label_le.
Proof.
  intros s1 s2 s3. unfold label_le, String.leb. intros H1 H2.
  pose proof (string_compare_trans_le s1 s2 s3) as H.
  destruct (s1 ?= s2)%string, (s2 ?= s3)%string, (s1 ?= s3)%string;
    try done; exfalso; by apply H.
Qed.

#[global] Instance label_le_total : Total label_le.
Proof. intros s t. apply String.leb_total. Qed.

#[global] Instance label_le_antisym : AntiSymm (=) label_le.
Proof. intros s t. apply String.leb_antisym. Qed.

Lemma sorted_perm (l : list string) : sorted l ≡ₚ l.
Proof. apply merge_sort_Permutation. Qed.

Lemma sorted_strongly (l : list string) : StronglySorted label_le (sorted l).
Proof. apply StronglySorted_merge_sort; apply _. Qed.

Lemma elem_of_sorted (l : list string) (x : string) : x ∈ sorted l ↔ x ∈ l.
Proof. by rewrite sorted_perm. Qed.

Lemma NoDup_sorted (l : list string) : NoDup l → NoDup (sorted l).
Proof. by rewrite sorted_perm. Qed.

(** ** One pass over the rows *)

Section Passes.

Lemma at_set_columns (df : DataFrame) idx col v :
  col ∈ columns df → columns (at_set df idx col v) = columns df.
Proof. intros Hin. unfold at_set; simpl. by rewrite decide_True. Qed.

Lemma assign_loop_columns (fm : string) (f : Row → cell)
    (l : list (nat * Row)) (acc : DataFrame) :
  fm ∈ columns acc →
  columns (fold_left (λ forecasted_df '(idx, row),
                        if reserved (state row) then forecasted_df
                        else at_set forecasted_df idx fm (f row)) l acc)
  = columns acc.
Proof.
  revert acc. induction l as [|[idx row] l IH]; intros acc Hin; simpl; [done|].
  destruct (reserved (state row)); [by apply IH|].
  rewrite IH; rewrite at_set_columns; done.
Qed.

Lemma assign_loop_rows (fm : string) (f : Row → cell) (l done : list Row)
    (acc : DataFrame) :
  rows acc = done ++ l →
  rows (fold_left (λ forecasted_df '(idx, row),
                     if reserved (state row) then forecasted_df
                     else at_set forecasted_df idx fm (f row))
          (imap (λ i r, (length done + i, r)%nat) l) acc)
  = done ++ map (assign_row fm f) l.
Proof.
  revert done acc. induction l as [|x l IH]; intros done acc Hacc; simpl.
  - by rewrite Hacc.
  - rewrite (imap_ext _ (λ i r, (length (done ++ [assign_row fm f x]) + i, r)%nat) l).
    2:{ intros i r _. simpl. rewrite length_app. simpl. f_equal. lia. }
    rewrite IH.
    + by rewrite <- app_assoc.
    + unfold assign_row. destruct (reserved (state x)).
      * by rewrite Hacc, <- app_assoc.
      * simpl. rewrite Hacc, alter_app_r. by rewrite <- app_assoc.
Qed.

Lemma assign_pass (fm : string) (f : Row → cell) (df : DataFrame) :
  fm ∈ columns df →
  fold_left (λ forecasted_df '(idx, row),
               if reserved (state row) then forecasted_df
               else at_set forecasted_df idx fm (f row))
    (iterrows df) df
  = MkDataFrame (columns df) (map (assign_row fm f) (rows df)).
Proof.
  intros Hin.
  match goal with |- ?res = _ =>
    transitivity (MkDataFrame (columns res) (rows res)); [by destruct res|]
  end.
  f_equal.
  - by apply assign_loop_columns.
  - exact (assign_loop_rows fm f (rows df) [] df eq_refl).
Qed.

Lemma special_rows_eq df prev_year_same_month fm adjustment :
  fm ∈ columns df →
  special_rows df prev_year_same_month fm adjustment
  = MkDataFrame (columns df)
      (map (assign_row fm
              (λ row, special_forecast row prev_year_same_month adjustment))
         (rows df)).
Proof. apply assign_pass. Qed.

Lemma standard_rows_eq df a b c fm ratio :
  fm ∈ columns df →
  standard_rows df a b c fm ratio
  = MkDataFrame (columns df)
      (map (assign_row fm (λ row, standard_forecast row a b c ratio)) (rows df)).
Proof. apply assign_pass. Qed.

Lemma create_column_id df fm : fm ∈ columns df → create_column df fm = df.
Proof. intros Hin. unfold create_column. by rewrite decide_True. Qed.

End Passes.

(** ** Rows and frames *)

Section Frames.

Lemma row_get_set (col : string) (v : cell) (r : Row) :
  row_get (row_set col v r) col = v.
Proof. unfold row_get, row_set; simpl. by rewrite lookup_insert_eq. Qed.

Lemma row_get_set_ne (col col' : string) (v : cell) (r : Row) :
  col ≠ col' → row_get (row_set col v r) col' = row_get r col'.
Proof. intros Hne. unfold row_get, row_set; simpl. by rewrite lookup_insert_ne. Qed.

Lemma reserved_TOTAL : reserved "TOTAL" = true.
Proof. reflexivity. Qed.

Lemma reserved_MEMBERSHIP : reserved "MEMBERSHIP" = true.
Proof. reflexivity. Qed.

Lemma reserved_false (name : string) :
  reserved name = false ↔ name ≠ "TOTAL" ∧ name ≠ "MEMBERSHIP".
Proof.
  unfold reserved. rewrite bool_decide_eq_false.
  rewrite !elem_of_cons, elem_of_nil. tauto.
Qed.

Lemma row_frame_refl (months : list string) (r : Row) : row_frame months r r.
Proof. repeat split; eauto. Qed.

Lemma row_frame_trans (ms1 ms2 : list string) (r1 r2 r3 : Row) :
  row_frame ms1 r1 r2 → row_frame ms2 r2 r3 → row_frame (ms1 ++ ms2) r1 r3.
Proof.
  intros (Hs1 & Hm1 & Hc1 & Hn1) (Hs2 & Hm2 & Hc2 & Hn2). repeat split.
  - congruence.
  - intros Hm. rewrite Hm2; [by apply Hm1|]. rewrite Hs1. done.
  - intros col Hcol. rewrite elem_of_app in Hcol.
    rewrite Hc2, Hc1; tauto.
  - intros col q Hq. destruct (Hn1 _ _ Hq) as [q' Hq']. eauto.
Qed.

Lemma row_frame_weaken (ms1 ms2 : list string) (r r' : Row) :
  ms1 ⊆ ms2 → row_frame ms1 r r' → row_frame ms2 r r'.
Proof.
  intros Hsub (Hs & Hm & Hc & Hn). repeat split; eauto.
Qed.

Lemma row_frame_set (fm : string) (q : Qc) (r : Row) :
  state r ≠ "MEMBERSHIP" → row_frame [fm] r (row_set fm (Num q) r).
Proof.
  intros Hne. repeat split; [done| |].
  - intros col Hcol. apply row_get_set_ne. intros ->. apply Hcol. by left.
  - intros col q' Hq'. destruct (decide (fm = col)) as [->|Hc].
    + rewrite row_get_set. eauto.
    + rewrite row_get_set_ne by done. eauto.
Qed.

Lemma row_frame_assign (fm : string) (f : Row → cell) (r : Row) :
  (∀ r, ∃ q, f r = Num q) → row_frame [fm] r (assign_row fm f r).
Proof.
  intros Hf. unfold assign_row. destruct (reserved (state r)) eqn:E.
  - apply row_frame_refl.
  - destruct (Hf r) as [q ->]. apply row_frame_set.
    apply reserved_false in E. tauto.
Qed.

Lemma frame_rel_refl (months : list string) (df : DataFrame) :
  frame_rel months df df.
Proof.
  split; [done|]. apply Forall_Forall2_diag, Forall_forall.
  intros r _. apply row_frame_refl.
Qed.

Lemma frame_rel_trans (ms1 ms2 : list string) (d1 d2 d3 : DataFrame) :
  frame_rel ms1 d1 d2 → frame_rel ms2 d2 d3 → frame_rel (ms1 ++ ms2) d1 d3.
Proof.
  intros [Hc1 H1] [Hc2 H2]. split; [congruence|].
  eapply Forall2_trans; [|exact H1|exact H2].
  intros r1 r2 r3. apply row_frame_trans.
Qed.

Lemma frame_rel_lookup (months : list string) (df df' : DataFrame) idx r :
  frame_rel months df df' → rows df !! idx = Some r →
  ∃ r', rows df' !! idx = Some r' ∧ row_frame months r r'.
Proof.
  intros [_ H] Hr. eapply Forall2_lookup_l in H as (r' & ? & ?); eauto.
Qed.

Lemma frame_rel_cell (months : list string) (df df' : DataFrame) idx col :
  frame_rel months df df' → col ∉ months →
  cell_at df' idx col = cell_at df idx col.
Proof.
  intros [_ H] Hcol. unfold cell_at.
  destruct (rows df !! idx) as [r|] eqn:E.
  - eapply Forall2_lookup_l in H as (r' & -> & (_ & _ & Hc & _)); eauto.
  - apply list.Forall2_length in H.
    apply lookup_ge_None in E. rewrite (proj2 (lookup_ge_None _ _)); [done|lia].
Qed.

Lemma frame_rel_named (months : list string) (name : string)
    (df df' : DataFrame) :
  frame_rel months df df' →
  Forall2 (row_frame months) (rows_named name df) (rows_named name df').
Proof.
  intros [_ H]. unfold rows_named.
  induction H as [|r r' l l' Hr H IH]; [constructor|].
  rewrite !filter_cons. destruct Hr as (Hs & Hrest).
  rewrite Hs. destruct (decide (state r = name)); [|done].
  constructor; [|done]. by split.
Qed.

Lemma frame_rel_membership (months : list string) (df df' : DataFrame) :
  frame_rel months df df' →
  rows_named "MEMBERSHIP" df' = rows_named "MEMBERSHIP" df.
Proof.
  intros H. pose proof (frame_rel_named months "MEMBERSHIP" df df' H) as HF.
  assert (Hall : Forall (λ r, state r = "MEMBERSHIP") (rows_named "MEMBERSHIP" df)).
  { apply list.Forall_forall. intros r Hr. unfold rows_named in Hr.
    by apply list_elem_of_filter in Hr as [? _]. }
  induction HF as [|r r' l l' Hr HF IH]; [done|].
  inversion Hall; subst. destruct Hr as (_ & Hm & _).
  rewrite Hm by done. f_equal. by apply IH.
Qed.

Lemma frame_rel_numeric (months cols : list string) (df df' : DataFrame) :
  frame_rel months df df' → numeric_on cols df → numeric_on cols df'.
Proof.
  intros [_ H] Hnum r' col Hr' Hcol.
  apply list_elem_of_lookup in Hr' as [i Hi].
  eapply Forall2_lookup_r in H as (r & Hr & (_ & _ & _ & Hn)); eauto.
  destruct (Hnum r col) as [q Hq]; [by eapply list_elem_of_lookup_2|done|].
  eauto.
Qed.

End Frames.

(** ** Writing one month *)

Section WriteMonth.

Lemma frame_rel_weaken (ms1 ms2 : list string) (df df' : DataFrame) :
  ms1 ⊆ ms2 → frame_rel ms1 df df' → frame_rel ms2 df df'.
Proof.
  intros Hsub [Hc H]. split; [done|].
  eapply list.Forall2_impl; [exact H|]. intros r r'. by apply row_frame_weaken.
Qed.

Lemma list_find_total {R : Row → Row → Prop} (l l' : list Row) i total' :
  (∀ r r', R r r' → state r' = state r) →
  Forall2 R l l' →
  list_find (λ r, state r = "TOTAL") l' = Some (i, total') →
  ∃ total, list_find (λ r, state r = "TOTAL") l = Some (i, total)
           ∧ R total total'.
Proof.
  intros HR H Hfind. apply list_find_Some in Hfind as (Hi & Hs & Hbefore).
  destruct (Forall2_lookup_r _ _ _ _ _ H Hi) as (total & Hl & Hfr).
  exists total. split; [|done]. apply list_find_Some. split_and!; [done| |].
  - rewrite <- (HR _ _ Hfr). done.
  - intros j y Hj Hlt Hy.
    destruct (Forall2_lookup_l _ _ _ _ _ H Hj) as (y' & Hj' & Hst).
    apply (Hbefore j y' Hj' Hlt). by rewrite (HR _ _ Hst).
Qed.

Lemma column_sum_ordinary_ext (l l' : list Row) (month : string) :
  Forall2 (λ r r', state r' = state r
                   ∧ (reserved (state r) = false →
                      num (row_get r' month) = num (row_get r month))) l l' →
  column_sum (filter (λ r, reserved (state r) = false) l') month
  = column_sum (filter (λ r, reserved (state r) = false) l) month.
Proof.
  induction 1 as [|r r' l l' [Hs Hc] H IH]; [done|].
  rewrite !filter_cons, Hs.
  destruct (decide (reserved (state r) = false)) as [Hr|Hr]; [|done].
  simpl. by rewrite IH, Hc.
Qed.

(** The total invariant of a month only depends on the identifiers and on
    the numbers of that month. *)
Lemma total_at_transfer (a b : DataFrame) (month : string) :
  Forall2 (same_values month) (rows a) (rows b) →
  total_invariant_at a month → total_invariant_at b month.
Proof.
  intros H Hinv i total' Hfind.
  destruct (list_find_total _ _ _ _ (λ r r' Hr, proj1 Hr) H Hfind)
    as (total & Hf & (_ & Hcell)).
  rewrite Hcell, (Hinv _ _ Hf).
  symmetry. apply column_sum_ordinary_ext.
  eapply list.Forall2_impl; [exact H|].
  intros r r' (Hs & Hn). split; [done|]. by intros _.
Qed.

Lemma frame_total_at (months : list string) (df df' : DataFrame) month :
  frame_rel months df df' → month ∉ months →
  total_invariant_at df month → total_invariant_at df' month.
Proof.
  intros [Hc H] Hm. apply total_at_transfer.
  eapply list.Forall2_impl; [exact H|].
  intros r r' (Hs & _ & Hcell & _). split; [done|]. by rewrite Hcell.
Qed.

Lemma recalculate_total_columns (df : DataFrame) (fm : string) :
  fm ∈ columns df → columns (recalculate_total df fm) = columns df.
Proof.
  intros Hin. unfold recalculate_total.
  destruct (list_find _ _) as [[i t]|]; [|done]. by apply at_set_columns.
Qed.

Lemma recalculate_total_frame (df : DataFrame) (fm : string) :
  fm ∈ columns df → frame_rel [fm] df (recalculate_total df fm).
Proof.
  intros Hin. split; [by apply recalculate_total_columns|].
  unfold recalculate_total.
  destruct (list_find _ _) as [[i t]|] eqn:E; simpl.
  - apply list_find_Some in E as (Hi & Hs & _).
    apply Forall2_alter_r.
    + apply Forall_Forall2_diag, list.Forall_forall. intros r _.
      apply row_frame_refl.
    + intros x y Hx Hy _. assert (x = t) by congruence.
      assert (y = t) by congruence. subst.
      apply row_frame_set. by rewrite Hs.
  - apply Forall_Forall2_diag, list.Forall_forall. intros r _.
    apply row_frame_refl.
Qed.

Lemma recalculate_total_at (df : DataFrame) (fm : string) :
  total_invariant_at (recalculate_total df fm) fm.
Proof.
  intros i' total' Hfind. unfold recalculate_total in *.
  destruct (list_find _ (rows df)) as [[i t]|] eqn:E; simpl in *.
  - pose proof E as (Hi & Hs & Hbefore)%list_find_Some.
    assert (Hfind' : list_find (λ r, state r = "TOTAL")
                       (alter (row_set fm (Num (column_sum
                          (filter (λ r, reserved (state r) = false) (rows df)) fm)))
                          i (rows df))
                     = Some (i, row_set fm (Num (column_sum
                          (filter (λ r, reserved (state r) = false) (rows df)) fm)) t)).
    { apply list_find_Some. split_and!.
      - rewrite list_lookup_alter_eq, Hi. done.
      - done.
      - intros j y Hj Hlt. rewrite list_lookup_alter_ne in Hj by lia.
        by apply (Hbefore j). }
    rewrite Hfind' in Hfind. inversion Hfind; subst.
    rewrite row_get_set. simpl.
    symmetry. unfold ordinary_rows; simpl. apply column_sum_ordinary_ext.
    apply Forall2_alter_r.
    + apply Forall_Forall2_diag, list.Forall_forall. by intros.
    + intros x y Hx Hy _. assert (x = t) by congruence.
      assert (y = t) by congruence. subst. split; [done|].
      rewrite Hs, reserved_TOTAL. done.
  - congruence.
Qed.

Lemma write_month_columns (df : DataFrame) fm f :
  fm ∈ columns df → columns (write_month df fm f) = columns df.
Proof. intros Hin. unfold write_month. by rewrite recalculate_total_columns. Qed.

Lemma write_month_frame (df : DataFrame) fm f :
  fm ∈ columns df → (∀ r, ∃ q, f r = Num q) →
  frame_rel [fm] df (write_month df fm f).
Proof.
  intros Hin Hf. unfold write_month.
  apply (frame_rel_weaken ([fm] ++ [fm])).
  { intros x [Hx|Hx]%elem_of_app; exact Hx. }
  eapply frame_rel_trans; [|by apply recalculate_total_frame].
  split; [done|]. simpl. apply Forall2_fmap_r, Forall_Forall2_diag, list.Forall_forall.
  intros r _. by apply row_frame_assign.
Qed.

Lemma write_month_ordinary (df : DataFrame) fm f idx r :
  fm ∈ columns df → rows df !! idx = Some r → reserved (state r) = false →
  cell_at (write_month df fm f) idx fm = f r.
Proof.
  intros Hin Hr Hres. unfold write_month, recalculate_total, cell_at.
  assert (Hmid : map (assign_row fm f) (rows df) !! idx = Some (row_set fm (f r) r)).
  { rewrite list_lookup_fmap, Hr. simpl. unfold assign_row. by rewrite Hres. }
  destruct (list_find _ _) as [[i t]|] eqn:E; simpl.
  - apply list_find_Some in E as (Hi & Hs & _). simpl in Hi.
    destruct (decide (i = idx)) as [->|Hne].
    + rewrite Hmid in Hi. inversion Hi; subst. simpl in Hs.
      apply reserved_false in Hres. tauto.
    + rewrite list_lookup_alter_ne by done. rewrite Hmid. apply row_get_set.
  - rewrite Hmid. apply row_get_set.
Qed.

Lemma write_month_total_at (df : DataFrame) fm f :
  total_invariant_at (write_month df fm f) fm.
Proof. apply recalculate_total_at. Qed.

Lemma write_month_invariant (df : DataFrame) fm f :
  fm ∈ columns df → (∀ r, ∃ q, f r = Num q) →
  total_invariant df → total_invariant (write_month df fm f).
Proof.
  intros Hin Hf Hinv month Hmonth.
  rewrite write_month_columns in Hmonth by done.
  destruct (decide (month = fm)) as [->|Hne].
  - apply write_month_total_at.
  - eapply frame_total_at; [by apply write_month_frame| |by apply Hinv].
    by rewrite list_elem_of_singleton.
Qed.

End WriteMonth.

(** ** The conversion of the month columns *)

Section Conversion.

Lemma to_numeric_fillna_idemp (c : cell) :
  to_numeric_fillna (to_numeric_fillna c) = to_numeric_fillna c.
Proof. by destruct c. Qed.

Lemma to_numeric_fillna_num (c : cell) : ∃ q, to_numeric_fillna c = Num q.
Proof. destruct c; simpl; eauto. Qed.

Lemma num_to_numeric_fillna (c : cell) : num (to_numeric_fillna c) = num c.
Proof. by destruct c. Qed.

Lemma convert_months_spec (all_months : list string) (df : DataFrame) :
  columns (convert_months df all_months) = columns df
  ∧ Forall2 (converted_row all_months (columns df))
      (rows df) (rows (convert_months df all_months)).
Proof.
  unfold convert_months. revert df.
  induction all_months as [|m ms IH]; intros df; simpl.
  - split; [done|]. apply Forall_Forall2_diag, list.Forall_forall.
    intros r _. split; [done|]. intros col.
    rewrite decide_False; [done|]. rewrite elem_of_nil. tauto.
  - destruct (decide (m ∈ columns df)) as [Hm|Hm].
    + destruct (IH (to_numeric_column df m)) as [Hc H]. simpl in *.
      split; [done|].
      eapply (Forall2_trans
                (λ r r1, r1 = row_set m (to_numeric_fillna (row_get r m)) r)
                (converted_row ms (columns df))); [| |exact H].
      2:{ apply Forall2_fmap_r, Forall_Forall2_diag, list.Forall_forall.
          by intros. }
      intros r r1 r2 -> [Hs Hcell]. split; [done|].
      intros col. rewrite Hcell.
      destruct (decide (m = col)) as [->|Hne].
      * rewrite row_get_set, to_numeric_fillna_idemp.
        rewrite (decide_True (P := col ∈ col :: ms ∧ _)) by (split; [left|done]).
        by destruct (decide _).
      * rewrite row_get_set_ne by done.
        destruct (decide (col ∈ ms ∧ _)) as [[? ?]|Hn].
        -- rewrite decide_True; [done|]. split; [by right|done].
        -- rewrite decide_False; [done|]. rewrite elem_of_cons.
           intros [[?|?] ?]; [congruence|tauto].
    + destruct (IH df) as [Hc H]. split; [done|].
      eapply list.Forall2_impl; [exact H|].
      intros r r' [Hs Hcell]. split; [done|]. intros col. rewrite Hcell.
      destruct (decide (col ∈ ms ∧ _)) as [[? ?]|Hn].
      * rewrite decide_True; [done|]. split; [by right|done].
      * rewrite decide_False; [done|]. rewrite elem_of_cons.
        intros [[->|?] ?]; tauto.
Qed.

Lemma convert_months_columns (all_months : list string) (df : DataFrame) :
  columns (convert_months df all_months) = columns df.
Proof. apply convert_months_spec. Qed.

Lemma convert_months_lookup (all_months : list string) (df : DataFrame) idx r :
  rows df !! idx = Some r →
  ∃ r', rows (convert_months df all_months) !! idx = Some r'
        ∧ converted_row all_months (columns df) r r'.
Proof.
  intros Hr. destruct (convert_months_spec all_months df) as [_ H].
  eapply Forall2_lookup_l in H as (r' & ? & ?); eauto.
Qed.

Lemma convert_months_numeric (all_months : list string) (df : DataFrame) :
  all_months ⊆ columns df → numeric_on all_months (convert_months df all_months).
Proof.
  intros Hsub r' col Hr' Hcol.
  destruct (convert_months_spec all_months df) as [_ H].
  apply list_elem_of_lookup in Hr' as [i Hi].
  eapply Forall2_lookup_r in H as (r & Hr & (_ & Hcell)); eauto.
  rewrite Hcell, decide_True; [|split; [done|by apply Hsub]].
  apply to_numeric_fillna_num.
Qed.

Lemma convert_months_num (all_months : list string) (df : DataFrame) idx col :
  num (cell_at (convert_months df all_months) idx col) = num (cell_at df idx col).
Proof.
  unfold cell_at. destruct (convert_months_spec all_months df) as [_ H].
  destruct (rows df !! idx) as [r|] eqn:E.
  - eapply Forall2_lookup_l in H as (r' & -> & (_ & Hcell)); eauto.
    rewrite Hcell. destruct (decide _); [apply num_to_numeric_fillna|done].
  - apply list.Forall2_length in H. apply lookup_ge_None in E.
    rewrite (proj2 (lookup_ge_None _ _)); [done|lia].
Qed.

End Conversion.

(** ** One iteration of the forecast loop *)

Section Iteration.

Context (all_months : list string) (latest_actual : string)
        (membership_row : list Row).

Local Abbreviation step := (forecast_one all_months latest_actual membership_row).

Lemma forecast_one_parse df log fm st' :
  step (df, log) fm = Ok st' → ∃ y m, parse_month fm = Ok (y, m).
Proof.
  unfold forecast_one. destruct (parse_month fm) as [[y m]|e]; [eauto|done].
Qed.

Lemma forecast_one_special df log :
  SPECIAL_FORECAST_MONTH ∈ columns df → "2024-08" ∈ all_months →
  step (df, log) SPECIAL_FORECAST_MONTH
  = Ok (write_month df SPECIAL_FORECAST_MONTH
          (λ row, special_forecast row "2024-08"
                    (membership_adjustment membership_row latest_actual
                       "2024-08" SPECIAL_FORECAST_MONTH).1),
        log ++ (membership_adjustment membership_row latest_actual
                  "2024-08" SPECIAL_FORECAST_MONTH).2).
Proof.
  intros Hcol Hin. unfold forecast_one.
  change (parse_month SPECIAL_FORECAST_MONTH) with (Ok (2025, 8)). simpl.
  rewrite decide_True by done.
  destruct (membership_adjustment _ _ _ _) as [adj ws]. simpl.
  rewrite special_rows_eq by done. done.
Qed.

Lemma forecast_one_special_skip df log :
  "2024-08" ∉ all_months →
  step (df, log) SPECIAL_FORECAST_MONTH
  = Ok (df, log ++ [MissingRequiredData SPECIAL_FORECAST_MONTH]).
Proof.
  intros Hin. unfold forecast_one.
  change (parse_month SPECIAL_FORECAST_MONTH) with (Ok (2025, 8)). simpl.
  by rewrite decide_False.
Qed.

Lemma required_months_all y m :
  forallb (λ month, bool_decide (month ∈ all_months))
    [prev_label y m; same_month_last_year_label y m;
     prev_of_last_year_label y m] = true
  ↔ prev_label y m ∈ all_months
    ∧ same_month_last_year_label y m ∈ all_months
    ∧ prev_of_last_year_label y m ∈ all_months.
Proof.
  simpl. rewrite !andb_true_iff, !bool_decide_eq_true. tauto.
Qed.

Lemma forecast_one_unfold_standard df log fm y m :
  parse_month fm = Ok (y, m) → fm ≠ SPECIAL_FORECAST_MONTH →
  step (df, log) fm
  = if forallb (λ month, bool_decide (month ∈ all_months))
         [prev_label y m; same_month_last_year_label y m;
          prev_of_last_year_label y m]
    then Ok (recalculate_total
               (standard_rows (create_column df fm) (prev_label y m)
                  (same_month_last_year_label y m)
                  (prev_of_last_year_label y m) fm
                  (membership_ratio membership_row (prev_label y m)
                     (same_month_last_year_label y m))) fm, log)
    else Ok (df, log ++ [MissingRequiredData fm]).
Proof.
  intros Hparse Hne. unfold forecast_one. rewrite Hparse. simpl.
  rewrite decide_False by done.
  unfold prev_label, same_month_last_year_label, prev_of_last_year_label.
  destruct (get_previous_month y m) as [py pm].
  destruct (get_previous_month (y - 1) m) as [ppy ppm]. done.
Qed.

Lemma forecast_one_standard df log fm y m :
  fm ∈ columns df → parse_month fm = Ok (y, m) →
  fm ≠ SPECIAL_FORECAST_MONTH →
  prev_label y m ∈ all_months →
  same_month_last_year_label y m ∈ all_months →
  prev_of_last_year_label y m ∈ all_months →
  step (df, log) fm
  = Ok (write_month df fm
          (λ row, standard_forecast row (prev_label y m)
                    (same_month_last_year_label y m)
                    (prev_of_last_year_label y m)
                    (membership_ratio membership_row (prev_label y m)
                       (same_month_last_year_label y m))), log).
Proof.
  intros Hcol Hparse Hne H1 H2 H3.
  rewrite (forecast_one_unfold_standard _ _ _ y m) by done.
  rewrite (proj2 (required_months_all y m)) by done.
  rewrite create_column_id by done.
  rewrite standard_rows_eq by done. done.
Qed.

Lemma forecast_one_standard_skip df log fm y m :
  parse_month fm = Ok (y, m) → fm ≠ SPECIAL_FORECAST_MONTH →
  ¬ (prev_label y m ∈ all_months
     ∧ same_month_last_year_label y m ∈ all_months
     ∧ prev_of_last_year_label y m ∈ all_months) →
  step (df, log) fm = Ok (df, log ++ [MissingRequiredData fm]).
Proof.
  intros Hparse Hne Hmiss.
  rewrite (forecast_one_unfold_standard _ _ _ y m) by done.
  destruct (forallb _ _) eqn:E; [|done].
  by apply required_months_all in E.
Qed.

Lemma special_forecast_num row prev adj :
  ∃ q, special_forecast row prev adj = Num q.
Proof. unfold special_forecast. destruct (isna _); eauto. Qed.

Lemma standard_forecast_num row a b c ratio :
  ∃ q, standard_forecast row a b c ratio = Num q.
Proof. unfold standard_forecast. destruct (_ || _); eauto. Qed.

(** An iteration leaves the frame as it is or writes one month. *)
Lemma forecast_one_cases df log fm df' log' :
  fm ∈ columns df → step (df, log) fm = Ok (df', log') →
  (df' = df ∧ log' = log ++ [MissingRequiredData fm])
  ∨ ∃ f ws, df' = write_month df fm f ∧ log' = log ++ ws
            ∧ (∀ r, ∃ z, 0 ≤ z ∧ f r = Num (Z2Qc z)).
Proof.
  intros Hcol Hstep.
  destruct (forecast_one_parse _ _ _ _ Hstep) as (y & m & Hparse).
  destruct (decide (fm = SPECIAL_FORECAST_MONTH)) as [->|Hne].
  - destruct (decide ("2024-08" ∈ all_months)) as [Hin|Hin].
    + rewrite forecast_one_special in Hstep by done. inversion Hstep; subst.
      right. eexists _, _. split_and!; [done..|].
      intros r. unfold special_forecast. destruct (isna _).
      * exists 0. by rewrite Z2Qc_0.
      * eexists. split; [|done]. lia.
    + rewrite forecast_one_special_skip in Hstep by done.
      inversion Hstep; subst. by left.
  - destruct (decide (prev_label y m ∈ all_months
                      ∧ same_month_last_year_label y m ∈ all_months
                      ∧ prev_of_last_year_label y m ∈ all_months))
      as [(H1 & H2 & H3)|Hmiss].
    + rewrite (forecast_one_standard _ _ _ y m) in Hstep by done.
      inversion Hstep; subst. right. eexists _, []. split_and!; [done| |].
      * by rewrite app_nil_r.
      * intros r. unfold standard_forecast. destruct (_ || _).
        -- exists 0. by rewrite Z2Qc_0.
        -- eexists. split; [|done]. apply py_round_nonneg, py_max0_nonneg.
    + rewrite (forecast_one_standard_skip _ _ _ y m) in Hstep by done.
      inversion Hstep; subst. by left.
Qed.

Lemma forecast_one_frame df log fm df' log' :
  fm ∈ columns df → step (df, log) fm = Ok (df', log') →
  frame_rel [fm] df df'
  ∧ (total_invariant df → total_invariant df')
  ∧ ∃ ws, log' = log ++ ws.
Proof.
  intros Hcol Hstep.
  destruct (forecast_one_cases _ _ _ _ _ Hcol Hstep)
    as [[-> ->]|(f & ws & -> & -> & Hf)].
  - split_and!; [apply frame_rel_refl|done|eauto].
  - assert (Hnum : ∀ r, ∃ q, f r = Num q).
    { intros r. destruct (Hf r) as (z & _ & ->). eauto. }
    split_and!; [by apply write_month_frame| |eauto].
    by apply write_month_invariant.
Qed.

(** ** The whole loop *)

Lemma for_each_cons {A S : Type} (body : S → A → result S) x (l : list A) s :
  for_each body (x :: l) s
  = match body s x with
    | Ok s' => for_each body l s'
    | Raise e => Raise e
    end.
Proof. done. Qed.

Lemma for_each_app {A S : Type} (body : S → A → result S) (l1 l2 : list A) s :
  for_each body (l1 ++ l2) s
  = match for_each body l1 s with
    | Ok s' => for_each body l2 s'
    | Raise e => Raise e
    end.
Proof.
  revert s. induction l1 as [|x l1 IH]; intros s; [done|].
  rewrite <- app_comm_cons, !for_each_cons. destruct (body s x); [apply IH|done].
Qed.

Lemma for_each_frame (months : list string) df log df' log' :
  months ⊆ columns df →
  for_each step months (df, log) = Ok (df', log') →
  frame_rel months df df'
  ∧ (total_invariant df → total_invariant df')
  ∧ ∃ ws, log' = log ++ ws.
Proof.
  revert df log. induction months as [|fm months IH]; intros df log Hsub Hrun.
  - simpl in Hrun. inversion Hrun; subst.
    split_and!; [apply frame_rel_refl|done|]. exists []. by rewrite app_nil_r.
  - rewrite for_each_cons in Hrun.
    destruct (step (df, log) fm) as [[df1 log1]|e] eqn:E; [|done].
    assert (Hfm : fm ∈ columns df) by (apply Hsub; left).
    destruct (forecast_one_frame _ _ _ _ _ Hfm E) as (Hf1 & Hi1 & ws1 & ->).
    destruct (IH df1 (log ++ ws1)) as (Hf2 & Hi2 & ws2 & ->); [|done|].
    { destruct Hf1 as [-> _]. intros x Hx. apply Hsub. by right. }
    split_and!.
    + exact (frame_rel_trans [fm] months _ _ _ Hf1 Hf2).
    + auto.
    + exists (ws1 ++ ws2). by rewrite app_assoc.
Qed.

Lemma months_before_split (P : string) (months : list string) :
  P ∈ months → NoDup months →
  ∃ rest, (months = months_before P months ++ (P :: rest))
          ∧ (P ∉ months_before P months) ∧ (P ∉ rest).
Proof.
  induction months as [|m months IH]; intros Hin Hnd.
  - by apply elem_of_nil in Hin.
  - simpl. apply list.NoDup_cons in Hnd as [Hm Hnd].
    destruct (decide (m = P)) as [->|Hne].
    + exists months. split_and!; [done|apply not_elem_of_nil|done].
    + apply elem_of_cons in Hin as [->|Hin]; [done|].
      destruct (IH Hin Hnd) as (rest & Heq & Hb & Hr).
      exists rest. split_and!; [simpl; by rewrite <- Heq| |done].
      rewrite not_elem_of_cons. split; [congruence|done].
Qed.

(** The run of the loop cut at the iteration for [P]. *)
Lemma for_each_reaches (months : list string) (P : string) df out log :
  NoDup months → P ∈ months → months ⊆ columns df →
  for_each step months (df, []) = Ok (out, log) →
  ∃ st lg st' lg' ws rest,
    for_each step (months_before P months) (df, []) = Ok (st, lg)
    ∧ step (st, lg) P = Ok (st', lg')
    ∧ months = months_before P months ++ (P :: rest)
    ∧ (P ∉ rest)
    ∧ frame_rel (months_before P months) df st
    ∧ frame_rel rest st' out
    ∧ log = lg' ++ ws.
Proof.
  intros Hnd HP Hsub Hrun.
  destruct (months_before_split P months HP Hnd) as (rest & Heq & Hb & Hr).
  rewrite Heq, for_each_app in Hrun.
  destruct (for_each step (months_before P months) (df, []))
    as [[st lg]|e] eqn:E1; [|done].
  rewrite for_each_cons in Hrun.
  destruct (step (st, lg) P) as [[st' lg']|e] eqn:E2; [|done].
  assert (Hsub1 : months_before P months ⊆ columns df).
  { intros x Hx. apply Hsub. rewrite Heq. apply elem_of_app. by left. }
  destruct (for_each_frame _ _ _ _ _ Hsub1 E1) as (Hf1 & _ & _).
  assert (HPst : P ∈ columns st). { destruct Hf1 as [-> _]. by apply Hsub. }
  destruct (forecast_one_frame _ _ _ _ _ HPst E2) as ([Hc2 _] & _ & _).
  assert (Hsub2 : rest ⊆ columns st').
  { intros x Hx. rewrite Hc2. destruct Hf1 as [-> _]. apply Hsub.
    rewrite Heq. apply elem_of_app. right. by right. }
  destruct (for_each_frame _ _ _ _ _ Hsub2 Hrun) as (Hf3 & _ & ws & ->).
  exists st, lg, st', lg', ws, rest. split_and!; done.
Qed.

End Iteration.

(** ** The month classifier *)

Section Classifier.

Lemma classify_fold (total : Row) (others : list Row)
    (months actual forecast : list string) :
  fold_left
    (λ '(actual_months, forecast_months) month,
       match total :: others with
       | [] => (actual_months, forecast_months)
       | total :: _ =>
           let value := row_get total month in
           if needs_forecast value
           then (actual_months, forecast_months ++ [month])
           else (actual_months ++ [month], forecast_months)
       end)
    months (actual, forecast)
  = (actual ++ filter (λ m, needs_forecast (row_get total m) = false) months,
     forecast ++ filter (λ m, needs_forecast (row_get total m) = true) months).
Proof.
  revert actual forecast. induction months as [|m months IH];
    intros actual forecast; simpl.
  - by rewrite !app_nil_r.
  - rewrite !filter_cons. destruct (needs_forecast (row_get total m)) eqn:E.
    + rewrite IH. rewrite decide_False by done. rewrite decide_True by done.
      by rewrite <- app_assoc.
    + rewrite IH. rewrite decide_True by done. rewrite decide_False by done.
      by rewrite <- app_assoc.
Qed.

Lemma classify_fold_empty (months actual forecast : list string) :
  fold_left
    (λ '(actual_months, forecast_months) month,
       match @nil Row with
       | [] => (actual_months, forecast_months)
       | total :: _ =>
           let value := row_get total month in
           if needs_forecast value
           then (actual_months, forecast_months ++ [month])
           else (actual_months ++ [month], forecast_months)
       end)
    months (actual, forecast)
  = (actual, forecast).
Proof. induction months as [|m months IH]; simpl; done. Qed.

Lemma identify_spec df all_months actual_months forecast_months latest_actual :
  identify_months_to_forecast df
  = Ok (all_months, actual_months, forecast_months, latest_actual) →
  ∃ state_col rest,
    columns df = state_col :: rest
    ∧ all_months = sorted (filter (λ col, col ≠ state_col) (columns df))
    ∧ latest_actual = list.last actual_months
    ∧ match rows_named "TOTAL" df with
      | [] => actual_months = [] ∧ forecast_months = []
      | total :: _ =>
          actual_months
          = filter (λ m, needs_forecast (row_get total m) = false) all_months
          ∧ forecast_months
            = filter (λ m, needs_forecast (row_get total m) = true) all_months
      end.
Proof.
  unfold identify_months_to_forecast.
  destruct (columns df) as [|state_col rest] eqn:Ecols; [done|].
  intros H. exists state_col, rest. split; [done|].
  destruct (rows_named "TOTAL" df) as [|total others] eqn:Etot.
  - rewrite classify_fold_empty in H. by inversion H; subst.
  - rewrite (classify_fold total others) in H. by inversion H; subst.
Qed.

Lemma identify_months_sub df all_months actual_months forecast_months la :
  identify_months_to_forecast df
  = Ok (all_months, actual_months, forecast_months, la) →
  all_months ⊆ columns df ∧ forecast_months ⊆ all_months
  ∧ actual_months ⊆ all_months
  ∧ (NoDup (columns df) → NoDup all_months ∧ NoDup forecast_months
                          ∧ NoDup actual_months).
Proof.
  intros (sc & rest & Hc & -> & _ & Hparts)%identify_spec.
  assert (Hsub : sorted (filter (λ col, col ≠ sc) (columns df)) ⊆ columns df).
  { intros x Hx. rewrite elem_of_sorted in Hx.
    by apply list_elem_of_filter in Hx as [_ ?]. }
  assert (Hnd : NoDup (columns df) →
                NoDup (sorted (filter (λ col, col ≠ sc) (columns df)))).
  { intros Hnd. by apply NoDup_sorted, list.NoDup_filter. }
  destruct (rows_named "TOTAL" df) as [|total others].
  - destruct Hparts as [-> ->].
    split_and!; [done|by intros x Hx%elem_of_nil..|].
    intros Hn. split_and!; [by apply Hnd|constructor|constructor].
  - destruct Hparts as [-> ->]. split_and!; [done| | |].
    + intros x Hx. by apply list_elem_of_filter in Hx as [_ ?].
    + intros x Hx. by apply list_elem_of_filter in Hx as [_ ?].
    + intros Hn. split_and!; [by apply Hnd|by apply list.NoDup_filter, Hnd..].
Qed.

End Classifier.

(** ** The run of [calculate_forecasts] *)

Section Run.

Lemma calculate_forecasts_run df all_months forecast_months la out log :
  calculate_forecasts df all_months forecast_months la = Ok (out, log) →
  ∃ final,
    for_each
      (forecast_one all_months la
         (rows_named "MEMBERSHIP" (convert_months df all_months)))
      (sorted forecast_months) (convert_months df all_months, [])
    = Ok (final, log)
    ∧ rows out = rows final
    ∧ ∃ state_col rest,
        columns df = state_col :: rest
        ∧ columns out
          = state_col :: sorted (filter (λ col, col ≠ state_col) (columns final)).
Proof.
  unfold calculate_forecasts.
  destruct (columns df) as [|state_col rest] eqn:Ecols; [done|].
  unfold mbind, result_bind.
  destruct (for_each _ _ _) as [[final lg]|e]; [|done].
  intros H. inversion H; subst. exists final. split_and!; [done..|].
  by exists state_col, rest.
Qed.

Lemma membership_ratio_quotient (cols : list string) (df : DataFrame)
    (numerator denominator : string) :
  numeric_on cols df → denominator ∈ cols →
  membership_ratio (rows_named "MEMBERSHIP" df) numerator denominator
  = membership_quotient df numerator denominator.
Proof.
  intros Hnum Hden. unfold membership_ratio, membership_quotient.
  destruct (rows_named "MEMBERSHIP" df) as [|mem rest] eqn:E; [done|].
  assert (Hmem : mem ∈ rows df).
  { assert (Hin : mem ∈ rows_named "MEMBERSHIP" df) by (rewrite E; left).
    unfold rows_named in Hin. by apply list_elem_of_filter in Hin as [_ ?]. }
  destruct (Hnum mem denominator Hmem Hden) as [d ->]. simpl.
  destruct (decide (d = 0%Qc)) as [->|Hd].
  - by rewrite bool_decide_eq_true_2.
  - by rewrite bool_decide_eq_false_2.
Qed.

Lemma membership_adjustment_quotient (cols : list string) (df : DataFrame)
    (la prev_year forecast_month : string) :
  numeric_on cols df → prev_year ∈ cols →
  (membership_adjustment (rows_named "MEMBERSHIP" df) la prev_year
     forecast_month).1
  = membership_quotient df la prev_year.
Proof.
  intros Hnum Hden. unfold membership_adjustment, membership_quotient.
  destruct (rows_named "MEMBERSHIP" df) as [|mem rest] eqn:E; [done|].
  assert (Hmem : mem ∈ rows df).
  { assert (Hin : mem ∈ rows_named "MEMBERSHIP" df) by (rewrite E; left).
    unfold rows_named in Hin. by apply list_elem_of_filter in Hin as [_ ?]. }
  destruct (Hnum mem prev_year Hmem Hden) as [d ->]. simpl.
  destruct (decide (d = 0%Qc)) as [->|Hd].
  - by rewrite bool_decide_eq_true_2.
  - rewrite bool_decide_eq_false_2 by done. simpl. by field.
Qed.

End Run.

(** ** Labels of calendar months

    On labels of four-digit years and months 01 to 12 the string order is
    the order of the calendar, and [parse_month] reads back what
    [get_year_month_string] printed. *)

Section Calendar.

Lemma string_compare_app (s u v : string) :
  (s +:+ u ?= s +:+ v)%string = (u ?= v)%string.
Proof.
  induction s as [|a s IH]; simpl; [done|]. by rewrite ascii_compare_refl.
Qed.

Lemma string_compare_app_lt (s t u v : string) :
  String.length s = String.length t →
  (s ?= t)%string = Lt → (s +:+ u ?= t +:+ v)%string = Lt.
Proof.
  revert t. induction s as [|a s IH]; intros [|b t]; simpl; try done.
  intros Hlen. destruct (a ?= b)%char; [|done..].
  apply IH. congruence.
Qed.

Lemma split_nonempty (sep : ascii) (s : string) : split sep s ≠ [].
Proof.
  induction s as [|c s IH]; simpl; [done|].
  destruct (decide (c = sep)); [done|]. by destruct (split sep s).
Qed.

Lemma split_app (sep : ascii) (s t : string) :
  split sep s = [s] → split sep (s +:+ String sep t) = s :: split sep t.
Proof.
  induction s as [|c s IH]; simpl.
  - intros _. by rewrite decide_True.
  - destruct (decide (c = sep)) as [->|Hne].
    + intros H. inversion H.
    + pose proof (split_nonempty sep s) as Hs.
      destruct (split sep s) as [|w ws] eqn:E; [done|].
      intros H. inversion H; subst. by rewrite IH.
Qed.

Lemma years_checked :
  forallb year_check (map (λ n, 1000 + Z.of_nat n) (seq 0 (Z.to_nat 9000))) = true.
Proof. vm_compute. reflexivity. Qed.

Lemma year_facts (y : Z) :
  1000 ≤ y ≤ 9999 →
  String.length (pretty y) = 4%nat
  ∧ int (pretty y) = Ok y
  ∧ split "-"%char (pretty y) = [pretty y]
  ∧ (y < 9999 → label_le (pretty y) (pretty (y + 1))).
Proof.
  intros Hy. pose proof years_checked as H.
  rewrite forallb_forall in H. specialize (H y).
  assert (Hin : In y (map (λ n, 1000 + Z.of_nat n) (seq 0 (Z.to_nat 9000)))).
  { apply in_map_iff. exists (Z.to_nat (y - 1000)). split; [lia|].
    apply in_seq. lia. }
  specialize (H Hin). unfold year_check in H.
  rewrite !andb_true_iff, orb_true_iff, !bool_decide_eq_true in H.
  destruct H as (((H1 & H2) & H3) & H4). split_and!; [done..|].
  intros Hlt. destruct H1 as [->|H1]; [lia|done].
Qed.

Lemma year_le_mono (y1 y2 : Z) :
  1000 ≤ y1 → y1 ≤ y2 → y2 ≤ 9999 → label_le (pretty y1) (pretty y2).
Proof.
  intros H1 H12 H2.
  remember (Z.to_nat (y2 - y1)) as n eqn:Hn.
  revert y2 H12 H2 Hn. induction n as [|n IH]; intros y2 H12 H2 Hn.
  - assert (y2 = y1) as -> by lia. reflexivity.
  - transitivity (pretty (y2 - 1)).
    + apply IH; lia.
    + replace y2 with (y2 - 1 + 1) at 2 by lia.
      apply year_facts; lia.
Qed.

Lemma year_compare_lt (y1 y2 : Z) :
  1000 ≤ y1 → y1 < y2 → y2 ≤ 9999 → (pretty y1 ?= pretty y2)%string = Lt.
Proof.
  intros H1 H12 H2.
  pose proof (year_le_mono y1 y2 H1 ltac:(lia) H2) as Hle.
  unfold label_le, String.leb in Hle.
  destruct (pretty y1 ?= pretty y2)%string eqn:E; [|done..].
  apply String.compare_eq_iff in E.
  destruct (year_facts y1 ltac:(lia)) as (_ & Hi1 & _).
  destruct (year_facts y2 ltac:(lia)) as (_ & Hi2 & _).
  rewrite E, Hi2 in Hi1. inversion Hi1. lia.
Qed.

Lemma month_cases (m : Z) :
  1 ≤ m ≤ 12 →
  m = 1 ∨ m = 2 ∨ m = 3 ∨ m = 4 ∨ m = 5 ∨ m = 6 ∨ m = 7 ∨ m = 8 ∨ m = 9
  ∨ m = 10 ∨ m = 11 ∨ m = 12.
Proof. lia. Qed.

Lemma month_compare (m1 m2 : Z) :
  1 ≤ m1 ≤ 12 → 1 ≤ m2 ≤ 12 →
  (two_digits m1 ?= two_digits m2)%string = (m1 ?= m2).
Proof.
  intros H1%month_cases H2%month_cases.
  repeat (destruct H1 as [->|H1]); try subst m1;
    repeat (destruct H2 as [->|H2]); try subst m2; reflexivity.
Qed.

Lemma month_parse (m : Z) :
  1 ≤ m ≤ 12 →
  split "-"%char (two_digits m) = [two_digits m] ∧ int (two_digits m) = Ok m.
Proof.
  intros H%month_cases.
  repeat (destruct H as [->|H]); try subst m; split; reflexivity.
Qed.

Lemma label_compare (y1 m1 y2 m2 : Z) :
  1000 ≤ y1 ≤ 9999 → 1 ≤ m1 ≤ 12 → 1000 ≤ y2 ≤ 9999 → 1 ≤ m2 ≤ 12 →
  (get_year_month_string y1 m1 ?= get_year_month_string y2 m2)%string
  = (12 * y1 + m1 ?= 12 * y2 + m2).
Proof.
  intros Hy1 Hm1 Hy2 Hm2. unfold get_year_month_string.
  fold (two_digits m1). fold (two_digits m2).
  destruct (Z.lt_trichotomy y1 y2) as [Hlt|[->|Hgt]].
  - rewrite string_compare_app_lt.
    + symmetry. apply Z.compare_lt_iff. lia.
    + destruct (year_facts y1 Hy1) as [-> _].
      by destruct (year_facts y2 Hy2) as [-> _].
    + apply year_compare_lt; lia.
  - rewrite !string_compare_app, month_compare by done.
    destruct (Z.compare_spec m1 m2); symmetry;
      [apply Z.compare_eq_iff|apply Z.compare_lt_iff|apply Z.compare_gt_iff]; lia.
  - rewrite String.compare_antisym, string_compare_app_lt.
    + symmetry. apply Z.compare_gt_iff. lia.
    + destruct (year_facts y1 Hy1) as [-> _].
      by destruct (year_facts y2 Hy2) as [-> _].
    + apply year_compare_lt; lia.
Qed.

(** The string order on well-formed labels is the calendar order. *)
Lemma label_le_calendar (y1 m1 y2 m2 : Z) :
  1000 ≤ y1 ≤ 9999 → 1 ≤ m1 ≤ 12 → 1000 ≤ y2 ≤ 9999 → 1 ≤ m2 ≤ 12 →
  label_le (get_year_month_string y1 m1) (get_year_month_string y2 m2)
  ↔ 12 * y1 + m1 ≤ 12 * y2 + m2.
Proof.
  intros Hy1 Hm1 Hy2 Hm2. unfold label_le, String.leb.
  rewrite label_compare by done.
  destruct (Z.compare_spec (12 * y1 + m1) (12 * y2 + m2)); split; try done; lia.
Qed.

Lemma parse_month_label (y m : Z) :
  1000 ≤ y ≤ 9999 → 1 ≤ m ≤ 12 →
  parse_month (get_year_month_string y m) = Ok (y, m).
Proof.
  intros Hy Hm. unfold parse_month, get_year_month_string.
  fold (two_digits m).
  destruct (year_facts y Hy) as (_ & Hint & Hsplit & _).
  destruct (month_parse m Hm) as [Hs Hi].
  change ("-" +:+ two_digits m) with (String "-"%char (two_digits m)).
  rewrite split_app, Hs by done. by rewrite Hint, Hi.
Qed.

End Calendar.

(** ** Sorted lists of labels *)

Section SortedLists.

Lemma StronglySorted_filter {A : Type} (R : relation A) (P : A → Prop)
    `{∀ x, Decision (P x)} (l : list A) :
  StronglySorted R l → StronglySorted R (filter P l).
Proof.
  induction 1 as [|x l Hs IH Hall]; [constructor|].
  rewrite filter_cons. destruct (decide (P x)); [|done].
  constructor; [done|]. rewrite list.Forall_forall in Hall.
  apply list.Forall_forall. intros y [_ Hy]%list_elem_of_filter. by apply Hall.
Qed.

Lemma StronglySorted_last {A : Type} (R : relation A) `{!Reflexive R}
    (l : list A) (x y : A) :
  StronglySorted R l → list.last l = Some y → x ∈ l → R x y.
Proof.
  induction 1 as [|z l Hs IH Hall]; intros Hlast Hx; [done|].
  rewrite last_cons in Hlast.
  destruct (list.last l) as [w|] eqn:E.
  - inversion Hlast; subst w. apply elem_of_cons in Hx as [->|Hx].
    + rewrite list.Forall_forall in Hall. apply Hall.
      destruct l as [|a l]; [done|]. by eapply list.last_Some_elem_of.
    + by apply IH.
  - inversion Hlast; subst z. apply list.last_None in E. subst l.
    apply elem_of_cons in Hx as [->|Hx]; [done|]. by apply elem_of_nil in Hx.
Qed.

Lemma sorted_pair (P1 P2 : string) (l : list string) :
  StronglySorted label_le l → NoDup l →
  label_le P1 P2 → P1 ≠ P2 → (∀ p, p ∈ l ↔ p = P1 ∨ p = P2) →
  l = [P1; P2].
Proof.
  intros Hs Hnd Hle Hne Hl.
  apply (StronglySorted_unique label_le); [done| |].
  - repeat constructor. done.
  - apply NoDup_Permutation; [done| |].
    + apply list.NoDup_cons. split; [by rewrite list_elem_of_singleton|].
      apply NoDup_singleton.
    + intros p. rewrite Hl, !elem_of_cons, elem_of_nil. tauto.
Qed.

End SortedLists.

(** ** What a run writes *)

Section Written.

Context (df : DataFrame) (all_months actual_months forecast_months : list string)
        (classified_latest : option string) (latest_actual : string)
        (out : DataFrame) (log : list warning).
Hypothesis Hcols : NoDup (columns df).
Hypothesis Hidentify :
  identify_months_to_forecast df
  = Ok (all_months, actual_months, forecast_months, classified_latest).
Hypothesis Hrun :
  calculate_forecasts df all_months forecast_months latest_actual
  = Ok (out, log).

Lemma run_cell_converted idx row col :
  rows df !! idx = Some row → col ∈ all_months →
  cell_at (convert_months df all_months) idx col
  = to_numeric_fillna (row_get row col).
Proof.
  intros Hrow Hcol.
  destruct (identify_months_sub _ _ _ _ _ Hidentify) as (Hsub & _).
  destruct (convert_months_lookup all_months df idx row Hrow)
    as (r' & Hr' & _ & Hcell).
  unfold cell_at. rewrite Hr', Hcell, decide_True; [done|].
  split; [done|by apply Hsub].
Qed.

Lemma months_before_not_elem (P : string) (months : list string) :
  P ∉ months_before P months.
Proof.
  induction months as [|m months IH]; simpl; [apply not_elem_of_nil|].
  destruct (decide (m = P)); [apply not_elem_of_nil|].
  rewrite not_elem_of_cons. split; [congruence|done].
Qed.

Lemma cell_at_rows (a b : DataFrame) idx col :
  rows a = rows b → cell_at a idx col = cell_at b idx col.
Proof. unfold cell_at. by intros ->. Qed.


(** The iteration for [P] of a run: the frame it starts from, the frame it
    leaves, and what the rest of the run keeps of both. *)
Lemma run_reaches (P : string) :
  P ∈ forecast_months →
  ∃ st lg st' lg' ws,
    frame_before df all_months forecast_months latest_actual P = Ok (st, lg)
    ∧ forecast_one all_months latest_actual (rows_named "MEMBERSHIP" st)
        (st, lg) P = Ok (st', lg')
    ∧ log = lg' ++ ws
    ∧ numeric_on all_months st
    ∧ P ∈ columns st
    ∧ (∀ idx row, rows df !! idx = Some row →
         ∃ r, rows st !! idx = Some r ∧ state r = state row)
    ∧ (∀ idx row, rows df !! idx = Some row →
         cell_at st idx P = to_numeric_fillna (row_get row P))
    ∧ (∀ idx, cell_at out idx P = cell_at st' idx P)
    ∧ (∀ idx col, ¬ label_le P col → cell_at out idx col = cell_at st idx col)
    ∧ rows_named "MEMBERSHIP" out = rows_named "MEMBERSHIP" st
    ∧ (total_invariant_at st' P → total_invariant_at out P).
Proof.
  intros HP.
  destruct (identify_months_sub _ _ _ _ _ Hidentify) as (Hsub & Hfsub & _ & Hnd).
  destruct (Hnd Hcols) as (_ & Hndf & _).
  destruct (calculate_forecasts_run _ _ _ _ _ _ Hrun)
    as (final & Hloop & Hrows & _).
  assert (Hsorted_sub : sorted forecast_months
                        ⊆ columns (convert_months df all_months)).
  { intros x Hx. rewrite elem_of_sorted in Hx.
    rewrite convert_months_columns. by apply Hsub, Hfsub. }
  destruct (for_each_reaches _ _ _ (sorted forecast_months) P _ _ _
              (NoDup_sorted _ Hndf) (proj2 (elem_of_sorted _ _) HP)
              Hsorted_sub Hloop)
    as (st & lg & st' & lg' & ws & rest & H1 & H2 & Heq & Hrest & Hf1 & Hf2 & ->).
  assert (HPst : P ∈ columns st).
  { destruct Hf1 as [-> _]. rewrite convert_months_columns.
    by apply Hsub, Hfsub. }
  destruct (forecast_one_frame _ _ _ _ _ _ _ _ HPst H2) as (Hfp & _ & _).
  assert (Hafter : Forall (label_le P) rest).
  { pose proof (sorted_strongly forecast_months) as Hss.
    rewrite Heq in Hss. apply StronglySorted_app_1_r in Hss.
    by apply StronglySorted_cons in Hss as [? _]. }
  exists st, lg, st', lg', ws.
  rewrite (frame_rel_membership _ _ _ Hf1).
  split_and!; try done.
  - eapply frame_rel_numeric; [exact Hf1|]. by apply convert_months_numeric.
  - intros idx row Hrow.
    destruct (convert_months_lookup all_months df idx row Hrow)
      as (r1 & Hr1 & Hs1 & _).
    destruct (frame_rel_lookup _ _ _ _ _ Hf1 Hr1) as (r & Hr & Hs & _).
    exists r. split; [done|congruence].
  - intros idx row Hrow.
    rewrite (frame_rel_cell _ _ _ idx P Hf1) by apply months_before_not_elem.
    apply run_cell_converted; [done|by apply Hfsub].
  - intros idx. rewrite (cell_at_rows out final) by done.
    by apply (frame_rel_cell rest).
  - intros idx col Hcol. rewrite (cell_at_rows out final) by done.
    assert (Hnot : col ∉ rest).
    { intros Hin. apply Hcol. by rewrite list.Forall_forall in Hafter; apply Hafter. }
    rewrite (frame_rel_cell rest st' final) by done.
    apply (frame_rel_cell [P]); [done|].
    rewrite list_elem_of_singleton. intros ->. apply Hcol. reflexivity.
  - unfold rows_named at 1. rewrite Hrows. fold (rows_named "MEMBERSHIP" final).
    rewrite (frame_rel_membership _ _ _ Hf2).
    by rewrite (frame_rel_membership _ _ _ Hfp), (frame_rel_membership _ _ _ Hf1).
  - intros Hinv. unfold total_invariant_at, ordinary_rows. rewrite Hrows.
    by apply (frame_total_at rest st' final).
Qed.

Lemma standard_written (P : string) (y m : Z) idx row :
  P ∈ forecast_months → P ≠ SPECIAL_FORECAST_MONTH →
  parse_month P = Ok (y, m) →
  prev_label y m ∈ all_months →
  same_month_last_year_label y m ∈ all_months →
  prev_of_last_year_label y m ∈ all_months →
  rows df !! idx = Some row → reserved (state row) = false →
  ∃ st lg,
    frame_before df all_months forecast_months latest_actual P = Ok (st, lg)
    ∧ cell_at out idx P
      = standard_formula st idx (prev_label y m)
          (same_month_last_year_label y m) (prev_of_last_year_label y m)
    ∧ (∀ i col, ¬ label_le P col → cell_at out i col = cell_at st i col)
    ∧ rows_named "MEMBERSHIP" out = rows_named "MEMBERSHIP" st.
Proof.
  intros HP Hne Hparse H1 H2 H3 Hrow Hres.
  destruct (run_reaches P HP)
    as (st & lg & st' & lg' & ws & Hbefore & Hstep & _ & Hnum & HPst & Hrows
        & _ & Hout & Hearlier & Hmem & _).
  exists st, lg. split_and!; [done| |done..].
  rewrite (forecast_one_standard _ _ _ _ _ _ y m) in Hstep by done.
  inversion Hstep; subst st' lg'. clear Hstep.
  destruct (Hrows idx row Hrow) as (r & Hr & Hs).
  rewrite Hout, (write_month_ordinary st P _ idx r) by (done || congruence).
  unfold standard_formula, standard_forecast, cell_at. rewrite Hr.
  assert (Hin : r ∈ rows st) by (by eapply list_elem_of_lookup_2).
  destruct (Hnum r _ Hin H1) as [a ->].
  destruct (Hnum r _ Hin H2) as [b ->].
  destruct (Hnum r _ Hin H3) as [c ->]. simpl.
  by rewrite (membership_ratio_quotient all_months).
Qed.

Lemma membership_quotient_num (cols : list string) (a : DataFrame)
    numerator denominator :
  membership_quotient a numerator denominator
  = match rows_named "MEMBERSHIP" a with
    | membership :: _ =>
        match row_get membership denominator with
        | Num d => if decide (d = 0%Qc) then 1%Qc
                   else (num (row_get membership numerator) / d)%Qc
        | _ => 1%Qc
        end
    | [] => 1%Qc
    end.
Proof. done. Qed.



Lemma special_written idx row :
  SPECIAL_FORECAST_MONTH ∈ forecast_months → "2024-08" ∈ all_months →
  rows df !! idx = Some row → reserved (state row) = false →
  ∃ st lg,
    frame_before df all_months forecast_months latest_actual
      SPECIAL_FORECAST_MONTH = Ok (st, lg)
    ∧ cell_at out idx SPECIAL_FORECAST_MONTH
      = new_cycle_formula st idx "2024-08" latest_actual
    ∧ (∀ i col, ¬ label_le SPECIAL_FORECAST_MONTH col →
         cell_at out i col = cell_at st i col)
    ∧ rows_named "MEMBERSHIP" out = rows_named "MEMBERSHIP" st.
Proof.
  intros HP Hin Hrow Hres.
  destruct (run_reaches _ HP)
    as (st & lg & st' & lg' & ws & Hbefore & Hstep & _ & Hnum & HPst & Hrows
        & _ & Hout & Hearlier & Hmem & _).
  exists st, lg. split_and!; [done| |done..].
  rewrite forecast_one_special in Hstep by done.
  inversion Hstep; subst st' lg'. clear Hstep.
  destruct (Hrows idx row Hrow) as (r & Hr & Hs).
  rewrite Hout, (write_month_ordinary st _ _ idx r) by (done || congruence).
  unfold new_cycle_formula, special_forecast, cell_at. rewrite Hr.
  assert (Hinr : r ∈ rows st) by (by eapply list_elem_of_lookup_2).
  destruct (Hnum r _ Hinr Hin) as [a ->]. simpl.
  rewrite (membership_adjustment_quotient all_months) by done.
  by rewrite max_round_comm.
Qed.


(** A month to forecast without its reference months is left as the
    conversion made it, in every row, and the warning is logged. *)
Lemma unreferenced_unwritten (P : string) :
  P ∈ forecast_months → ¬ has_references all_months P →
  (∀ idx row, rows df !! idx = Some row →
     cell_at out idx P = to_numeric_fillna (row_get row P))
  ∧ MissingRequiredData P ∈ log.
Proof.
  intros HP Hmiss.
  destruct (run_reaches P HP)
    as (st & lg & st' & lg' & ws & Hbefore & Hstep & -> & Hnum & HPst & Hrows
        & Hconv & Hout & _).
  destruct (forecast_one_parse _ _ _ _ _ _ _ Hstep) as (y & m & Hparse).
  unfold has_references in Hmiss. rewrite Hparse in Hmiss.
  assert (Hskip : st' = st ∧ lg' = lg ++ [MissingRequiredData P]).
  { destruct (decide (P = SPECIAL_FORECAST_MONTH)) as [->|Hne].
    - rewrite forecast_one_special_skip in Hstep by done.
      by inversion Hstep.
    - rewrite (forecast_one_standard_skip _ _ _ _ _ _ y m) in Hstep by done.
      by inversion Hstep. }
  destruct Hskip as [-> ->]. split.
  - intros idx row Hrow. rewrite Hout. by apply Hconv.
  - rewrite !elem_of_app, list_elem_of_singleton. auto.
Qed.


Lemma written_nonnegative (P : string) idx row :
  P ∈ forecast_months → has_references all_months P →
  rows df !! idx = Some row → reserved (state row) = false →
  ∃ z, 0 ≤ z ∧ cell_at out idx P = Num (Z2Qc z).
Proof.
  intros HP Href Hrow Hres. unfold has_references in Href.
  destruct (parse_month P) as [[y m]|e] eqn:Hparse; [|done].
  destruct (decide (P = SPECIAL_FORECAST_MONTH)) as [->|Hne].
  - destruct (special_written idx row HP Href Hrow Hres) as (st & lg & _ & -> & _).
    eexists. split; [|done]. apply py_round_nonneg, py_max0_nonneg.
  - destruct Href as (H1 & H2 & H3).
    destruct (standard_written P y m idx row HP Hne Hparse H1 H2 H3 Hrow Hres)
      as (st & lg & _ & -> & _).
    eexists. split; [|done]. apply py_round_nonneg, py_max0_nonneg.
Qed.

(** The TOTAL of a month the run forecast is the sum of the regions. *)
Lemma written_total (P : string) :
  P ∈ forecast_months → has_references all_months P →
  total_invariant_at out P.
Proof.
  intros HP Href. unfold has_references in Href.
  destruct (parse_month P) as [[y m]|e] eqn:Hparse; [|done].
  destruct (run_reaches P HP)
    as (st & lg & st' & lg' & ws & _ & Hstep & _ & _ & HPst & _ & _ & _ & _ & _
        & Hkeep).
  apply Hkeep.
  destruct (decide (P = SPECIAL_FORECAST_MONTH)) as [->|Hne].
  - rewrite forecast_one_special in Hstep by done.
    inversion Hstep; subst st' lg'. apply write_month_total_at.
  - destruct Href as (H1 & H2 & H3).
    rewrite (forecast_one_standard _ _ _ _ _ _ y m) in Hstep by done.
    inversion Hstep; subst st' lg'. apply write_month_total_at.
Qed.

(** Outside the forecast months, and on the MEMBERSHIP rows, a run only
    converts. *)
Lemma run_frame idx row col :
  rows df !! idx = Some row → col ∈ all_months →
  col ∉ forecast_months ∨ state row = "MEMBERSHIP" →
  cell_at out idx col = to_numeric_fillna (row_get row col).
Proof.
  intros Hrow Hcol Hwhere.
  destruct (identify_months_sub _ _ _ _ _ Hidentify) as (Hsub & Hfsub & _).
  destruct (calculate_forecasts_run _ _ _ _ _ _ Hrun)
    as (final & Hloop & Hrows & _).
  assert (Hsorted_sub : sorted forecast_months
                        ⊆ columns (convert_months df all_months)).
  { intros x Hx. rewrite elem_of_sorted in Hx.
    rewrite convert_months_columns. by apply Hsub, Hfsub. }
  destruct (for_each_frame _ _ _ _ _ _ _ _ Hsorted_sub Hloop) as (Hf & _ & _).
  rewrite (cell_at_rows out final) by done.
  rewrite <- (run_cell_converted idx row col) by done.
  destruct Hwhere as [Hnot|Hmem].
  - apply (frame_rel_cell (sorted forecast_months)); [done|].
    by rewrite elem_of_sorted.
  - destruct (convert_months_lookup all_months df idx row Hrow)
      as (r1 & Hr1 & Hs1 & _).
    destruct (frame_rel_lookup _ _ _ _ _ Hf Hr1) as (r & Hr & _ & Hm & _).
    unfold cell_at. rewrite Hr, Hr1. rewrite Hm; [done|congruence].
Qed.

Lemma run_states : state <$> rows out = state <$> rows df.
Proof.
  destruct (identify_months_sub _ _ _ _ _ Hidentify) as (Hsub & Hfsub & _).
  destruct (calculate_forecasts_run _ _ _ _ _ _ Hrun)
    as (final & Hloop & Hrows & _).
  assert (Hsorted_sub : sorted forecast_months
                        ⊆ columns (convert_months df all_months)).
  { intros x Hx. rewrite elem_of_sorted in Hx.
    rewrite convert_months_columns. by apply Hsub, Hfsub. }
  destruct (for_each_frame _ _ _ _ _ _ _ _ Hsorted_sub Hloop) as ([_ Hf] & _ & _).
  destruct (convert_months_spec all_months df) as [_ Hc].
  rewrite Hrows.
  assert (Hall : Forall2 (λ r r', state r' = state r) (rows df) (rows final)).
  { eapply Forall2_trans; [|exact Hc|exact Hf].
    intros r1 r2 r3 [H1 _] [H2 _]. congruence. }
  clear -Hall. induction Hall as [|r r' l l' H Hall IH]; [done|].
  rewrite !fmap_cons. by f_equal.
Qed.

End Written.

(** ** The total row *)

Section Totals.





End Totals.

(** ** The actuals sheet *)

Section Actuals.
Import Run_Actuals.

#[local] Opaque all_months.

Lemma lookup_tabulate (f : string → cell) (keys : list string) (k : string) :
  (list_to_map (map (λ month, (month, f month)) keys) : gmap string cell) !! k
  = if decide (k ∈ keys) then Some (f k) else None.
Proof.
  induction keys as [|x keys IH].
  - change (map (λ month, (month, f month)) []) with (@nil (string * cell)).
    rewrite list_to_map_nil, lookup_empty.
    destruct (decide (k ∈ [])) as [Hin|]; [|done].
    by apply elem_of_nil in Hin.
  - change (map (λ month, (month, f month)) (x :: keys))
      with ((x, f x) :: map (λ month, (month, f month)) keys).
    rewrite list_to_map_cons, lookup_insert. simpl.
    destruct (decide (x = k)) as [->|Hne].
    + by rewrite decide_True by left.
    + rewrite IH. destruct (decide (k ∈ keys)) as [Hin|Hin].
      * by rewrite decide_True by (by right).
      * rewrite decide_False; [done|].
        rewrite not_elem_of_cons. split; [congruence|done].
Qed.

Lemma assign_keys (state_data : list (string * gmap string Qc))
    (st month : string) (count : Qc) (P : string → Prop) :
  P st → Forall (λ entry, P entry.1) state_data →
  Forall (λ entry, P entry.1) (assign state_data st month count).
Proof.
  intros Hst. induction 1 as [|[s by_month] rest Hs Hrest IH]; simpl.
  - by repeat constructor.
  - destruct (decide (s = st)); constructor; done.
Qed.

Lemma group_sums_keys (recs : list (string * cell)) (P : string → Prop) :
  Forall (λ rec, P rec.1) recs → Forall (λ group, P group.1) (group_sums recs).
Proof.
  intros Hrecs. unfold group_sums. apply Forall_fmap, list.Forall_forall.
  intros st Hst. simpl. rewrite elem_of_sorted, elem_of_remove_dups in Hst.
  apply list_elem_of_fmap in Hst as (rec & -> & Hrec).
  rewrite list.Forall_forall in Hrecs. by apply Hrecs.
Qed.

Lemma process_files_keys (extracts : list Extract) (P : string → Prop) :
  Forall (λ file, Forall (λ rec, P rec.1) (records file)) extracts →
  Forall (λ entry, P entry.1) (process_files extracts).
Proof.
  unfold process_files.
  assert (Hgen : ∀ init, Forall (λ entry, P entry.1) init →
            Forall (λ file, Forall (λ rec, P rec.1) (records file)) extracts →
            Forall (λ entry, P entry.1)
              (fold_left
                 (λ state_data file,
                    if decide (file_month file ∈ all_months) then
                      fold_left (λ state_data '(st, count),
                                   assign state_data st (file_month file) count)
                        (group_sums (records file)) state_data
                    else state_data)
                 extracts init)).
  { induction extracts as [|file extracts IH]; intros init Hinit Hall; [done|].
    apply list.Forall_cons in Hall as [Hfile Hall]. simpl.
    apply IH; [|done].
    destruct (decide (file_month file ∈ all_months)); [|done].
    pose proof (group_sums_keys _ P Hfile) as Hgroups.
    revert init Hinit. induction Hgroups as [|[st c] groups Hst Hgroups IHg];
      intros init Hinit; [done|].
    simpl. apply IHg. by apply assign_keys. }
  intros Hall. by apply Hgen.
Qed.





End Actuals.

(** * Specification of the forecast engine *)

Lemma identify_sample (df : DataFrame) :
  columns df ≠ [] →
  identify_months_to_forecast df
  = Ok (months_of df, actual_of df, forecast_of df, latest_of df).
Proof.
  unfold months_of, actual_of, forecast_of, latest_of.
  unfold identify_months_to_forecast.
  destruct (columns df); [done|]. intros _.
  by destruct (fold_left _ _ _).
Qed.

Lemma calculate_sample (df : DataFrame) :
  (∃ res, calculate_forecasts df (months_of df) (forecast_of df)
            (default EmptyString (latest_of df)) = Ok res) →
  calculate_forecasts df (months_of df) (forecast_of df)
    (default EmptyString (latest_of df))
  = Ok ((forecast_sample df).1, (forecast_sample df).2).
Proof.
  intros [[o l] H]. unfold forecast_sample. by rewrite H.
Qed.

Ltac sample_identify := apply identify_sample; by vm_compute.
Ltac sample_calculate :=
  apply calculate_sample; eexists; vm_compute; reflexivity.





(** C5.  The code at the failing input: AL has no value for February 2025,
    the month before the forecast month March 2025, and all three reference
    months are columns.  The branch that would write 0 is never taken,
    because the conversion of lines 139-141 has already replaced the missing
    value by the number 0; the formula runs on it and AL gets
    round(0 + (120 - 100) * 1000 / 900) = 22, not 0. *)
Theorem absent_reference_value_is_forecast :
  isna (cell_at sample_absent 0 "2025-02") = true
  ∧ forecast_of sample_absent = ["2025-03"]
  ∧ cell_at (forecast_sample sample_absent).1 0 "2025-03" = count 22
  ∧ cell_at (forecast_sample sample_absent).1 0 "2025-03" ≠ count 0.
Proof.
  split_and!; [reflexivity|by vm_compute|by_computation|by_computation].
Qed.



(** C9. Non-negativity.  After a run, the cell of a region (a row that is
    neither TOTAL nor MEMBERSHIP) in a month to forecast is a non-negative
    integer when the month has its reference months, under either policy,
    and is not written at all otherwise.  A computed value that is not
    positive is clamped to 0 by both policies. *)
Theorem forecast_values_nonnegative
    (df : DataFrame) (all_months actual_months forecast_months : list string)
    (classified_latest : option string) (latest_actual : string)
    (out : DataFrame) (log : list warning) (P : string) (idx : nat) (row : Row) :
  NoDup (columns df) →
  identify_months_to_forecast df
  = Ok (all_months, actual_months, forecast_months, classified_latest) →
  calculate_forecasts df all_months forecast_months latest_actual
  = Ok (out, log) →
  P ∈ forecast_months →
  rows df !! idx = Some row → reserved (state row) = false →
  (has_references all_months P →
   ∃ z : Z, 0 ≤ z ∧ cell_at out idx P = Num (Z2Qc z))
  ∧ (¬ has_references all_months P →
     cell_at out idx P = to_numeric_fillna (row_get row P))
  ∧ (∀ x : Qc, (x ≤ 0)%Qc →
       py_round (py_max0 x) = 0 ∧ Z.max 0 (py_round x) = 0).
Proof.
  intros Hnd Hid Hrun HP Hrow Hres. split_and!.
  - intros Href. by eapply written_nonnegative.
  - intros Hmiss.
    by eapply (proj1 (unreferenced_unwritten _ _ _ _ _ _ _ _ Hnd Hid Hrun P
                        HP Hmiss)).
  - intros x Hx. rewrite max_round_comm.
    assert (py_max0 x = 0%Qc) as ->; [|done].
    unfold py_max0. destruct (Qclt_le_dec 0 x) as [Hlt|_]; [|done].
    by destruct (Qclt_not_le _ _ Hlt).
Qed.

Lemma forecast_values_nonnegative_witness :
  ∃ z : Z, 0 ≤ z ∧ cell_at (forecast_sample sample_standard).1 1 "2025-03"
                   = Num (Z2Qc z).
Proof.
  refine (proj1 (forecast_values_nonnegative sample_standard
            (months_of sample_standard) (actual_of sample_standard)
            (forecast_of sample_standard) (latest_of sample_standard)
            "2025-02" (forecast_sample sample_standard).1
            (forecast_sample sample_standard).2 "2025-03" 1%nat
            (sample_row "TX" [("2024-02", count 50); ("2024-03", count 20);
                              ("2025-02", count 10); ("2025-03", NaN)])
            _ _ _ _ _ _) _).
  - by_computation.
  - sample_identify.
  - sample_calculate.
  - by_computation.
  - reflexivity.
  - reflexivity.
  - by_computation.
Defined.

(** C10. Frame of [calculate_forecasts].  The identifier column is
    unchanged, and a month cell that is outside the months to forecast, or
    in a MEMBERSHIP row, holds in the output what the conversion makes of
    the input cell: the same number when the input is a number, 0 when it
    is blank, text or NaN. *)
Theorem calculate_forecasts_frame
    (df : DataFrame) (all_months actual_months forecast_months : list string)
    (classified_latest : option string) (latest_actual : string)
    (out : DataFrame) (log : list warning) :
  identify_months_to_forecast df
  = Ok (all_months, actual_months, forecast_months, classified_latest) →
  calculate_forecasts df all_months forecast_months latest_actual
  = Ok (out, log) →
  state <$> rows out = state <$> rows df
  ∧ ∀ idx row col,
      rows df !! idx = Some row → col ∈ all_months →
      col ∉ forecast_months ∨ state row = "MEMBERSHIP" →
      cell_at out idx col = to_numeric_fillna (row_get row col)
      ∧ (∀ q, row_get row col = Num q → cell_at out idx col = Num q)
      ∧ ((∀ q, row_get row col ≠ Num q) → cell_at out idx col = count 0).
Proof.
  intros Hid Hrun. split; [by eapply run_states|].
  intros idx row col Hrow Hcol Hwhere.
  rewrite (run_frame _ _ _ _ _ _ _ _ Hid Hrun idx row col) by done.
  split_and!; [done| |].
  - by intros q ->.
  - intros Habsent. destruct (row_get row col) as [| |q]; [done..|].
    by destruct (Habsent q).
Qed.

Lemma calculate_forecasts_frame_witness :
  cell_at (forecast_sample sample_standard).1 3 "2025-03" = count 0
  ∧ cell_at (forecast_sample sample_standard).1 0 "2025-02" = count 100.
Proof.
  destruct (calculate_forecasts_frame sample_standard
              (months_of sample_standard) (actual_of sample_standard)
              (forecast_of sample_standard) (latest_of sample_standard)
              "2025-02" (forecast_sample sample_standard).1
              (forecast_sample sample_standard).2) as [_ H].
  - sample_identify.
  - sample_calculate.
  - split.
    + refine (proj2 (proj2 (H 3%nat
               (sample_row "MEMBERSHIP"
                  [("2024-02", count 800); ("2024-03", count 900);
                   ("2025-02", count 1000); ("2025-03", NaN)])
               "2025-03" _ _ _)) _).
      * reflexivity.
      * by_computation.
      * by right.
      * intros q. by vm_compute.
    + refine (proj1 (proj2 (H 0%nat
               (sample_row "AL"
                  [("2024-02", count 100); ("2024-03", count 120);
                   ("2025-02", count 100); ("2025-03", NaN)])
               "2025-02" _ _ _)) (Z2Qc 100) _).
      * reflexivity.
      * by_computation.
      * left. by_computation.
      * reflexivity.
Defined.

(** * Specification of the month classifier and of [main] *)

Lemma needs_forecast_spec (c : cell) :
  needs_forecast c = true ↔ c = NaN ∨ c = Str EmptyString ∨ c = Num 0%Qc.
Proof.
  unfold needs_forecast. destruct c as [|s|q]; simpl.
  - split; [by left|done].
  - rewrite orb_false_r, bool_decide_eq_true. split; [intros ->; auto|].
    intros [?|[?|?]]; congruence.
  - rewrite bool_decide_eq_true. split; [intros ->; auto|].
    intros [?|[?|?]]; congruence.
Qed.

(** C3. Month classifier.  On a frame with a TOTAL row the classifier
    returns the month columns (every column but the identifier column) in
    the order of their labels, split into the actual months and the months
    to forecast: a month is to forecast exactly when the cell of the (first)
    TOTAL row is NaN, blank or the number 0, and actual otherwise; both
    lists are in order; the latest actual month is the last of the actual
    months, after all others.  When the TOTAL cell is NaN, blank or 0 for
    exactly two months, the months to forecast are these two, in order.  On
    labels of calendar months the order of the labels is the order of
    time. *)
Theorem classifier_partitions_months
    (df : DataFrame) (all_months actual_months forecast_months : list string)
    (latest_actual : option string) (total : Row) (others : list Row) :
  identify_months_to_forecast df
  = Ok (all_months, actual_months, forecast_months, latest_actual) →
  rows_named "TOTAL" df = total :: others →
  (∀ p, p ∈ all_months ↔ p ∈ columns df ∧ head (columns df) ≠ Some p)
  ∧ StronglySorted label_le all_months
  ∧ actual_months ++ forecast_months ≡ₚ all_months
  ∧ (∀ p, p ∈ forecast_months
          ↔ p ∈ all_months
            ∧ (row_get total p = NaN ∨ row_get total p = Str EmptyString
               ∨ row_get total p = Num 0%Qc))
  ∧ (∀ p, p ∈ actual_months
          ↔ p ∈ all_months
            ∧ ¬ (row_get total p = NaN ∨ row_get total p = Str EmptyString
                 ∨ row_get total p = Num 0%Qc))
  ∧ StronglySorted label_le actual_months
  ∧ StronglySorted label_le forecast_months
  ∧ latest_actual = list.last actual_months
  ∧ (∀ latest p, latest_actual = Some latest → p ∈ actual_months →
       label_le p latest)
  ∧ (∀ P1 P2, NoDup (columns df) → label_le P1 P2 → P1 ≠ P2 →
       (∀ p, p ∈ all_months ∧ (row_get total p = NaN ∨ row_get total p = Str EmptyString
                                ∨ row_get total p = Num 0%Qc)
             ↔ p = P1 ∨ p = P2) →
       forecast_months = [P1; P2])
  ∧ (∀ y1 m1 y2 m2,
       1000 ≤ y1 ≤ 9999 → 1 ≤ m1 ≤ 12 → 1000 ≤ y2 ≤ 9999 → 1 ≤ m2 ≤ 12 →
       label_le (get_year_month_string y1 m1) (get_year_month_string y2 m2)
       ↔ 12 * y1 + m1 ≤ 12 * y2 + m2).
Proof.
  intros Hid Htotal.
  pose proof (identify_months_sub _ _ _ _ _ Hid) as (_ & _ & _ & Hnd).
  destruct (identify_spec _ _ _ _ _ Hid) as (sc & rest & Hc & Hall & Hlast & Hparts).
  rewrite Htotal in Hparts. destruct Hparts as [Hact Hfc].
  assert (Hsorted : StronglySorted label_le all_months).
  { rewrite Hall. apply sorted_strongly. }
  assert (Hfm : ∀ p, p ∈ forecast_months
                     ↔ p ∈ all_months
                       ∧ (row_get total p = NaN ∨ row_get total p = Str EmptyString
                          ∨ row_get total p = Num 0%Qc)).
  { intros p. rewrite Hfc, list_elem_of_filter, needs_forecast_spec. tauto. }
  split_and!.
  - intros p. rewrite Hall, elem_of_sorted, list_elem_of_filter, Hc. simpl.
    split; intros [H1 H2]; (split; [|congruence]); congruence.
  - done.
  - rewrite Hact, Hfc.
    rewrite (list_filter_iff (λ m, needs_forecast (row_get total m) = true)
               (λ m, ¬ needs_forecast (row_get total m) = false)).
    + apply filter_app_complement.
    + intros m. by destruct (needs_forecast (row_get total m)).
  - done.
  - intros p. rewrite Hact, list_elem_of_filter, <- needs_forecast_spec.
    by destruct (needs_forecast (row_get total p)); intuition.
  - rewrite Hact. by apply StronglySorted_filter.
  - rewrite Hfc. by apply StronglySorted_filter.
  - done.
  - intros latest p Hl Hp. rewrite Hlast in Hl.
    eapply (StronglySorted_last label_le); [|done..].
    rewrite Hact. by apply StronglySorted_filter.
  - intros P1 P2 Hcols Hle Hne Hexact.
    apply sorted_pair; [| |done..|].
    + rewrite Hfc. by apply StronglySorted_filter.
    + by apply Hnd.
    + intros p. by rewrite Hfm, Hexact.
  - apply label_le_calendar.
Qed.

Lemma classifier_partitions_months_witness :
  forecast_of sample_skip = ["2025-01"; "2025-02"]
  ∧ latest_of sample_skip = Some "2024-12".
Proof.
  destruct (classifier_partitions_months sample_skip (months_of sample_skip)
              (actual_of sample_skip) (forecast_of sample_skip)
              (latest_of sample_skip)
              (sample_row "TOTAL" [("2024-01", count 30); ("2024-02", count 40);
                                   ("2024-12", count 50); ("2025-01", count 0);
                                   ("2025-02", count 0)])
              [])
    as (_ & _ & _ & _ & _ & _ & _ & Hlast & _ & Hpair & _).
  - sample_identify.
  - reflexivity.
  - split; [|by rewrite Hlast].
    apply Hpair; [by_computation|by vm_compute|done|].
    intros p. split.
    + intros [Hp Hcell].
      assert (Hp' : p ∈ ["2024-01"; "2024-02"; "2024-12"; "2025-01"; "2025-02"])
        by exact Hp.
      rewrite !elem_of_cons, elem_of_nil in Hp'.
      destruct Hp' as [->|[->|[->|[->|[->|Hp']]]]]; [auto..|done];
        exfalso; revert Hcell; by_computation.
    + intros [-> | ->]; (split; [by_computation|]); right; right;
        by_computation.
Defined.

(** C7. Idempotence.  On a frame whose TOTAL cell is neither NaN, blank nor
    0 in any month column, the classifier makes every month an actual month
    and none a month to forecast, and [main] reports success without
    calling [calculate_forecasts] or writing an artifact.  This is what a
    second run meets on the artifact of a run that left every TOTAL cell
    different from 0. *)
Theorem forecast_stage_idempotent
    (df : DataFrame) (state_col : string) (months : list string)
    (total : Row) (others : list Row) :
  columns df = state_col :: months →
  rows_named "TOTAL" df = total :: others →
  (∀ p, p ∈ columns df → p ≠ state_col →
        needs_forecast (row_get total p) = false) →
  let all_months := sorted (filter (λ col, col ≠ state_col) (columns df)) in
  identify_months_to_forecast df
  = Ok (all_months, all_months, [], list.last all_months)
  ∧ main (Some df) = MkOutcome true None [].
Proof.
  intros Hc Htotal Hfull all_months.
  assert (Hid : identify_months_to_forecast df
                = Ok (all_months, all_months, [], list.last all_months)).
  { unfold identify_months_to_forecast. rewrite Hc, Htotal.
    rewrite (classify_fold total others). simpl. fold all_months.
    assert (Hin : ∀ p, p ∈ all_months → needs_forecast (row_get total p) = false).
    { intros p Hp. unfold all_months in Hp.
      rewrite elem_of_sorted, list_elem_of_filter in Hp.
      destruct Hp. by apply Hfull; rewrite <- ?Hc. }
    assert (Hact : filter (λ m, needs_forecast (row_get total m) = false)
                     all_months = all_months).
    { clear -Hin. induction all_months as [|m l IH]; [done|].
      rewrite filter_cons, decide_True by (apply Hin; left).
      f_equal. apply IH. intros p Hp. apply Hin. by right. }
    assert (Hfc : filter (λ m, needs_forecast (row_get total m) = true)
                    all_months = []).
    { clear -Hin. induction all_months as [|m l IH]; [done|].
      rewrite filter_cons, decide_False.
      - apply IH. intros p Hp. apply Hin. by right.
      - rewrite Hin by left. done. }
    unfold all_months in Hact, Hfc. rewrite Hc in Hact, Hfc.
    simpl in Hact, Hfc. rewrite Hact, Hfc. unfold all_months. by rewrite Hc. }
  split; [done|]. unfold main. by rewrite Hid.
Qed.

Lemma forecast_stage_idempotent_witness :
  identify_months_to_forecast sample_complete
  = Ok (["2025-01"; "2025-02"], ["2025-01"; "2025-02"], [], Some "2025-02")
  ∧ main (Some sample_complete) = MkOutcome true None [].
Proof.
  refine (forecast_stage_idempotent sample_complete "State"
            ["2025-01"; "2025-02"]
            (sample_row "TOTAL" [("2025-01", count 3); ("2025-02", count 4)])
            [] _ _ _);
    [reflexivity|reflexivity|].
  intros p Hp Hne.
  assert (Hp' : p ∈ ["State"; "2025-01"; "2025-02"]) by exact Hp.
  rewrite !elem_of_cons, elem_of_nil in Hp'.
  destruct Hp' as [->|[->|[->|Hp']]]; [done|by vm_compute..|done].
Defined.

(** C8, as stated, fails on a sheet without a TOTAL row: the classifier
    finds no actual month and no month to forecast, and [main] reports
    success. *)
Lemma no_actual_months_yet_success :
  identify_months_to_forecast sample_no_total
  = Ok (["2025-01"; "2025-02"], [], [], None)
  ∧ success (main (Some sample_no_total)) = true.
Proof. split; by vm_compute. Qed.

(** C8, amended. Insufficient baseline.  When the classifier finds no actual
    month but at least one month to forecast, [main] returns false and
    writes nothing; this is the case whenever the frame has a TOTAL row and
    at least one month column.  When it finds no month to forecast either
    (no TOTAL row, or no month column), [main] returns true and writes
    nothing. *)
Theorem insufficient_baseline
    (df : DataFrame) (all_months forecast_months : list string)
    (latest_actual : option string) :
  identify_months_to_forecast df
  = Ok (all_months, [], forecast_months, latest_actual) →
  (forecast_months ≠ [] → main (Some df) = MkOutcome false None [])
  ∧ (forecast_months = [] → main (Some df) = MkOutcome true None [])
  ∧ (rows_named "TOTAL" df ≠ [] → all_months ≠ [] → forecast_months ≠ []).
Proof.
  intros Hid.
  destruct (identify_spec _ _ _ _ _ Hid) as (sc & rest & Hc & Hall & Hlast & Hparts).
  simpl in Hlast. subst latest_actual. split_and!.
  - intros Hne. unfold main. rewrite Hid.
    by destruct forecast_months.
  - intros ->. unfold main. by rewrite Hid.
  - intros Htotal Hmonths Hfc.
    destruct (rows_named "TOTAL" df) as [|total others]; [done|].
    destruct Hparts as [Hact Hfm].
    destruct all_months as [|m ms]; [done|].
    destruct (needs_forecast (row_get total m)) eqn:E.
    + rewrite Hfc, filter_cons, decide_True in Hfm by done. done.
    + rewrite filter_cons, decide_True in Hact by done. done.
Qed.

Lemma insufficient_baseline_witness :
  main (Some sample_no_baseline) = MkOutcome false None [].
Proof.
  refine (proj1 (insufficient_baseline sample_no_baseline
                   ["2025-01"; "2025-02"] ["2025-01"; "2025-02"] None _) _).
  - by vm_compute.
  - done.
Defined.

(** * Specification of the total row *)



(** ** When the forecast loop fails, and what it logs *)

Section Failure.

Context (all_months : list string) (latest_actual : string)
        (membership_row : list Row).

Local Abbreviation step := (forecast_one all_months latest_actual membership_row).









(** The warnings of one iteration. *)
Lemma membership_adjustment_log prev fm w :
  w ∈ (membership_adjustment membership_row latest_actual prev fm).2 →
  (w = DefaultMembershipAdjustment fm ∧ membership_row ≠ [])
  ∨ (w = NoMembershipRow ∧ membership_row = []).
Proof.
  unfold membership_adjustment. destruct membership_row as [|membership ?].
  - simpl. rewrite list_elem_of_singleton. by right.
  - destruct (_ && _); simpl.
    + by intros ?%elem_of_nil.
    + rewrite list_elem_of_singleton. by left.
Qed.

Lemma forecast_one_log df log fm df' log' :
  fm ∈ columns df → step (df, log) fm = Ok (df', log') →
  ∃ ws, log' = log ++ ws
    ∧ (∀ P, MissingRequiredData P ∈ ws
            ↔ P = fm ∧ ¬ has_references all_months fm)
    ∧ (∀ w, w ∈ ws → (∀ P, w ≠ MissingRequiredData P) →
            fm = SPECIAL_FORECAST_MONTH
            ∧ ((w = DefaultMembershipAdjustment fm ∧ membership_row ≠ [])
               ∨ (w = NoMembershipRow ∧ membership_row = []))).
Proof.
  intros Hcol Hstep.
  destruct (forecast_one_parse _ _ _ _ _ _ _ Hstep) as (y & m & Hparse).
  destruct (decide (fm = SPECIAL_FORECAST_MONTH)) as [->|Hne].
  - destruct (decide ("2024-08" ∈ all_months)) as [Hin|Hout].
    + rewrite forecast_one_special in Hstep by done.
      injection Hstep as _ <-. eexists. split; [done|]. split.
      * intros P. split.
        -- intros HP. apply membership_adjustment_log in HP.
           destruct HP as [[? _]|[? _]]; congruence.
        -- intros [_ Hno]. destruct Hno. unfold has_references.
           rewrite Hparse. by rewrite decide_True.
      * intros w Hw _. split; [done|]. by eapply membership_adjustment_log.
    + rewrite forecast_one_special_skip in Hstep by done.
      injection Hstep as _ <-. eexists. split; [done|]. split.
      * intros P. rewrite list_elem_of_singleton. split.
        -- intros [= ->]. split; [done|]. unfold has_references.
           rewrite Hparse. by rewrite decide_True.
        -- by intros [-> _].
      * intros w Hw%list_elem_of_singleton Hother. by destruct (Hother _ Hw).
  - destruct (decide (prev_label y m ∈ all_months
                      ∧ same_month_last_year_label y m ∈ all_months
                      ∧ prev_of_last_year_label y m ∈ all_months))
      as [(H1 & H2 & H3)|Hmiss].
    + rewrite (forecast_one_standard _ _ _ _ _ _ y m) in Hstep by done.
      injection Hstep as _ <-. exists []. rewrite app_nil_r.
      split; [done|]. split.
      * intros P. split; [by intros ?%elem_of_nil|].
        intros [_ Hno]. destruct Hno. unfold has_references.
        rewrite Hparse. by rewrite decide_False.
      * by intros w ?%elem_of_nil.
    + rewrite (forecast_one_standard_skip _ _ _ _ _ _ y m) in Hstep by done.
      injection Hstep as _ <-. eexists. split; [done|]. split.
      * intros P. rewrite list_elem_of_singleton. split.
        -- intros [= ->]. split; [done|]. unfold has_references.
           rewrite Hparse. by rewrite decide_False.
        -- by intros [-> _].
      * intros w Hw%list_elem_of_singleton Hother. by destruct (Hother _ Hw).
Qed.

Lemma for_each_log (months : list string) df log df' log' :
  months ⊆ columns df →
  for_each step months (df, log) = Ok (df', log') →
  ∃ ws, log' = log ++ ws
    ∧ (∀ P, MissingRequiredData P ∈ ws
            ↔ P ∈ months ∧ ¬ has_references all_months P)
    ∧ (∀ w, w ∈ ws → (∀ P, w ≠ MissingRequiredData P) →
            SPECIAL_FORECAST_MONTH ∈ months
            ∧ ((w = DefaultMembershipAdjustment SPECIAL_FORECAST_MONTH
                ∧ membership_row ≠ [])
               ∨ (w = NoMembershipRow ∧ membership_row = []))).
Proof.
  revert df log. induction months as [|fm months IH]; intros df log Hsub Hrun.
  - injection Hrun as <- <-. exists []. rewrite app_nil_r. split; [done|].
    split.
    + intros P. split; [by intros ?%elem_of_nil|by intros [?%elem_of_nil _]].
    + by intros w ?%elem_of_nil.
  - rewrite for_each_cons in Hrun.
    destruct (step (df, log) fm) as [[df1 log1]|e] eqn:Hstep; [|done].
    simpl in Hrun.
    assert (Hfm : fm ∈ columns df) by (apply Hsub; left).
    destruct (forecast_one_log _ _ _ _ _ Hfm Hstep) as (ws1 & -> & Hm1 & Ho1).
    destruct (forecast_one_frame _ _ _ _ _ _ _ _ Hfm Hstep) as ([Hc _] & _ & _).
    destruct (IH df1 (log ++ ws1)) as (ws2 & -> & Hm2 & Ho2); [|done|].
    { rewrite Hc. intros x Hx. apply Hsub. by right. }
    exists (ws1 ++ ws2). rewrite app_assoc. split; [done|]. split.
    + intros P. rewrite elem_of_app, Hm1, Hm2, list.elem_of_cons.
      split.
      * intros [[-> ?]|[? ?]]; auto.
      * intros [[->|?] ?]; auto.
    + intros w [Hw|Hw]%elem_of_app Hother.
      * destruct (Ho1 w Hw Hother) as [-> Hcases].
        split; [by left|done].
      * destruct (Ho2 w Hw Hother) as [Hin Hcases].
        split; [by right|done].
Qed.

End Failure.

(** ** The frame a run returns *)

Section Output.

Context (df : DataFrame) (all_months actual_months forecast_months : list string)
        (classified_latest : option string) (latest_actual : string)
        (out : DataFrame) (log : list warning).
Hypothesis Hidentify :
  identify_months_to_forecast df
  = Ok (all_months, actual_months, forecast_months, classified_latest).
Hypothesis Hrun :
  calculate_forecasts df all_months forecast_months latest_actual
  = Ok (out, log).

Lemma run_loop :
  ∃ final,
    for_each (forecast_one all_months latest_actual
                (rows_named "MEMBERSHIP" (convert_months df all_months)))
      (sorted forecast_months) (convert_months df all_months, [])
    = Ok (final, log)
    ∧ rows out = rows final
    ∧ frame_rel (sorted forecast_months) (convert_months df all_months) final
    ∧ sorted forecast_months ⊆ columns (convert_months df all_months).
Proof.
  destruct (identify_months_sub _ _ _ _ _ Hidentify) as (Hsub & Hfsub & _).
  destruct (calculate_forecasts_run _ _ _ _ _ _ Hrun)
    as (final & Hloop & Hrows & _).
  assert (Hsorted_sub : sorted forecast_months
                        ⊆ columns (convert_months df all_months)).
  { intros x Hx. rewrite elem_of_sorted in Hx.
    rewrite convert_months_columns. by apply Hsub, Hfsub. }
  destruct (for_each_frame _ _ _ _ _ _ _ _ Hsorted_sub Hloop) as (Hf & _ & _).
  by exists final.
Qed.

Lemma run_columns :
  ∃ state_col rest,
    columns df = state_col :: rest
    ∧ columns out = state_col :: all_months.
Proof.
  destruct run_loop as (final & Hloop & _ & [Hc _] & _).
  destruct (calculate_forecasts_run _ _ _ _ _ _ Hrun)
    as (final' & Hloop' & _ & sc & rest & Hcols & Hout).
  rewrite Hloop in Hloop'. injection Hloop' as <-.
  destruct (identify_spec _ _ _ _ _ Hidentify) as (sc' & rest' & Hcols' & Hall & _).
  rewrite Hcols in Hcols'. injection Hcols' as <- <-.
  exists sc, rest. split; [done|].
  by rewrite Hout, Hc, convert_months_columns, Hall.
Qed.

Lemma run_numeric : numeric_on all_months out.
Proof.
  destruct run_loop as (final & _ & Hrows & Hf & _).
  destruct (identify_months_sub _ _ _ _ _ Hidentify) as (Hsub & _).
  assert (Hnum : numeric_on all_months final).
  { eapply frame_rel_numeric; [exact Hf|].
    by apply convert_months_numeric. }
  intros r col Hr Hcol. rewrite Hrows in Hr. by apply Hnum.
Qed.

Lemma run_log (w : warning) :
  w ∈ log →
  (∃ P, w = MissingRequiredData P ∧ P ∈ forecast_months
        ∧ ¬ has_references all_months P)
  ∨ (SPECIAL_FORECAST_MONTH ∈ forecast_months
     ∧ ((w = DefaultMembershipAdjustment SPECIAL_FORECAST_MONTH
         ∧ rows_named "MEMBERSHIP" df ≠ [])
        ∨ (w = NoMembershipRow ∧ rows_named "MEMBERSHIP" df = []))).
Proof.
  intros Hw.
  destruct run_loop as (final & Hloop & _ & _ & Hsub).
  destruct (for_each_log _ _ _ _ _ _ _ _ Hsub Hloop) as (ws & Heq & Hm & Ho).
  simpl in Heq. subst ws.
  assert (Hmem : rows_named "MEMBERSHIP" (convert_months df all_months) = []
                 ↔ rows_named "MEMBERSHIP" df = []).
  { unfold rows_named. destruct (convert_months_spec all_months df) as [_ Hc].
    clear -Hc. induction Hc as [|r r' l l' [Hs _] Hc IH]; [done|].
    rewrite !filter_cons, Hs.
    destruct (decide (state r = "MEMBERSHIP")); [done|exact IH]. }
  destruct w as [P|P|].
  - left. exists P. apply Hm in Hw as [HP Hno].
    rewrite elem_of_sorted in HP. done.
  - right. destruct (Ho _ Hw) as [Hin Hcases]; [done|].
    rewrite elem_of_sorted in Hin. split; [done|].
    destruct Hcases as [[Heq Hne]|[? _]]; [|done].
    left. split; [done|]. by rewrite <- Hmem.
  - right. destruct (Ho _ Hw) as [Hin Hcases]; [done|].
    rewrite elem_of_sorted in Hin. split; [done|].
    destruct Hcases as [[? _]|[_ He]]; [done|].
    right. split; [done|]. by rewrite <- Hmem.
Qed.

Lemma run_log_missing (P : string) :
  P ∈ forecast_months → ¬ has_references all_months P →
  MissingRequiredData P ∈ log.
Proof.
  intros HP Hno.
  destruct run_loop as (final & Hloop & _ & _ & Hsub).
  destruct (for_each_log _ _ _ _ _ _ _ _ Hsub Hloop) as (ws & Heq & Hm & _).
  simpl in Heq. subst ws. apply Hm. by rewrite elem_of_sorted.
Qed.

End Output.

(** ** Sums of whole numbers *)

Section Integers.

Lemma Z2Qc_add (a b : Z) : Z2Qc (a + b) = (Z2Qc a + Z2Qc b)%Qc.
Proof.
  unfold Z2Qc. apply Qc_is_canon. simpl.
  rewrite !Qred_correct, inject_Z_plus. reflexivity.
Qed.

Lemma column_sum_integer (rs : list Row) (col : string) :
  (∀ r, r ∈ rs → ∃ z, 0 ≤ z ∧ row_get r col = Num (Z2Qc z)) →
  ∃ z, 0 ≤ z ∧ column_sum rs col = Z2Qc z.
Proof.
  induction rs as [|r rs IH]; intros Hall.
  - exists 0. split; [done|]. simpl. by rewrite Z2Qc_0.
  - destruct (Hall r) as (z1 & Hz1 & Hr); [by left|].
    destruct IH as (z2 & Hz2 & Hrs).
    { intros r' Hr'. apply Hall. by right. }
    exists (z1 + z2). split; [lia|].
    simpl. rewrite Hr, Hrs, Z2Qc_add. done.
Qed.

End Integers.

(** ** The forecast sheet *)

Section Sheet.

Lemma map_iterrows {B : Type} (F : Row → B) (position : nat → nat)
    (l : list Row) :
  map (λ '(row_idx, row), F row) (imap (λ idx row, (position idx, row)) l)
  = map F l.
Proof.
  revert position. induction l as [|r l IH]; intros position; [done|].
  simpl. f_equal. apply (IH (position ∘ S)).
Qed.

Lemma sheet_rows (df : DataFrame) (actual_months forecast_months : list string)
    (state_col : string) (months : list string) :
  columns df = state_col :: months →
  write_forecast_excel df actual_months forecast_months
  = Ok (map (λ row,
               (state row,
                map (λ month,
                       MkSheetCell month
                         (choose_format (state row) month actual_months)
                         (write_value (row_get row month)))
                  months))
          (rows df)).
Proof.
  intros Hc. unfold write_forecast_excel, iterrows. rewrite Hc. f_equal.
  apply (map_iterrows _ id).
Qed.

Lemma classified_once df all_months actual_months forecast_months la
    total others month :
  identify_months_to_forecast df
  = Ok (all_months, actual_months, forecast_months, la) →
  rows_named "TOTAL" df = total :: others →
  month ∈ all_months →
  (month ∈ actual_months ↔ month ∉ forecast_months)
  ∧ (month ∈ forecast_months
     ↔ needs_forecast (row_get total month) = true).
Proof.
  intros Hid Htotal Hmonth.
  destruct (identify_spec _ _ _ _ _ Hid) as (sc & rest & _ & _ & _ & Hparts).
  rewrite Htotal in Hparts. destruct Hparts as [-> ->].
  rewrite !list_elem_of_filter.
  destruct (needs_forecast (row_get total month)); split; split;
    intros H; try tauto; try done.
  - by destruct H.
  - intros [? _]. done.
Qed.

End Sheet.

(** * Further properties of the forecast engine *)

(** X1. Month labels round-trip.  For a four-digit year and a month 1-12
    the label [get_year_month_string] prints is read back by the
    [split('-')] / [int] of [calculate_forecasts] as the same year and
    month; so two calendar months never share a label. *)
Theorem month_label_round_trip (y m : Z) :
  1000 ≤ y ≤ 9999 → 1 ≤ m ≤ 12 →
  parse_month (get_year_month_string y m) = Ok (y, m)
  ∧ (∀ y' m', 1000 ≤ y' ≤ 9999 → 1 ≤ m' ≤ 12 →
       get_year_month_string y' m' = get_year_month_string y m →
       y' = y ∧ m' = m).
Proof.
  intros Hy Hm. split; [by apply parse_month_label|].
  intros y' m' Hy' Hm' Heq.
  pose proof (parse_month_label y' m' Hy' Hm') as H1.
  rewrite Heq, parse_month_label in H1 by done. by injection H1 as -> ->.
Qed.

Lemma month_label_round_trip_witness :
  parse_month (get_year_month_string 2025 8) = Ok (2025, 8).
Proof.
  refine (proj1 (month_label_round_trip 2025 8 _ _)); lia.
Defined.

(** X2. [get_previous_month] steps back one month.  On a month 1-12 the
    result is again a month 1-12, exactly one month earlier; twelve steps
    back give the same month of the year before, which is how the code
    names last year's month directly.  For a four-digit year the label of
    the previous month comes strictly before the label of the month. *)
Theorem previous_month_steps_back (y m : Z) :
  1 ≤ m ≤ 12 →
  1 ≤ (get_previous_month y m).2 ≤ 12
  ∧ 12 * (get_previous_month y m).1 + (get_previous_month y m).2
    = 12 * y + m - 1
  ∧ Nat.iter 12 (λ p, get_previous_month p.1 p.2) (y, m) = (y - 1, m)
  ∧ (1001 ≤ y ≤ 9999 →
     label_le (prev_label y m) (get_year_month_string y m)
     ∧ prev_label y m ≠ get_year_month_string y m).
Proof.
  intros Hm.
  assert (Hstep : 1 ≤ (get_previous_month y m).2 ≤ 12
                  ∧ 12 * (get_previous_month y m).1 + (get_previous_month y m).2
                    = 12 * y + m - 1
                  ∧ y - 1 ≤ (get_previous_month y m).1 ≤ y).
  { unfold get_previous_month. destruct (decide (m = 1)); simpl; lia. }
  destruct Hstep as (Hrange & Hindex & Hyear).
  split; [done|]. split; [done|]. split.
  - assert (Hcases : m = 1 ∨ m = 2 ∨ m = 3 ∨ m = 4 ∨ m = 5 ∨ m = 6 ∨ m = 7
                     ∨ m = 8 ∨ m = 9 ∨ m = 10 ∨ m = 11 ∨ m = 12) by lia.
    destruct Hcases as [-> | [-> | [-> | [-> | [-> | [-> | [-> | [-> | [-> |
                        [-> | [-> | ->]]]]]]]]]]]; reflexivity.
  - intros Hy. unfold prev_label.
    assert (Hpy : 1000 ≤ (get_previous_month y m).1 ≤ 9999) by lia.
    split.
    + apply label_le_calendar; [done..|lia| |]; lia.
    + intros Heq.
      pose proof (parse_month_label _ _ Hpy Hrange) as H1.
      rewrite Heq, parse_month_label in H1 by lia.
      injection H1 as H1 H2. lia.
Qed.

Lemma previous_month_steps_back_witness :
  1 ≤ (get_previous_month 2025 1).2 ≤ 12
  ∧ 12 * (get_previous_month 2025 1).1 + (get_previous_month 2025 1).2
    = 12 * 2025 + 1 - 1.
Proof.
  pose proof (previous_month_steps_back 2025 1 ltac:(lia)) as (H1 & H2 & _).
  exact (conj H1 H2).
Defined.





(** X6. Columns of the output.  The frame [calculate_forecasts] returns
    has the identifier column first and then the month columns the
    classifier found, in the order of their labels: no column is added and,
    when the labels of the input are distinct, none is lost. *)
Theorem output_columns_are_input_columns
    (df : DataFrame) (all_months actual_months forecast_months : list string)
    (classified_latest : option string) (latest_actual : string)
    (out : DataFrame) (log : list warning) :
  identify_months_to_forecast df
  = Ok (all_months, actual_months, forecast_months, classified_latest) →
  calculate_forecasts df all_months forecast_months latest_actual
  = Ok (out, log) →
  head (columns out) = head (columns df)
  ∧ tail (columns out) = all_months
  ∧ StronglySorted label_le (tail (columns out))
  ∧ (NoDup (columns df) → columns out ≡ₚ columns df).
Proof.
  intros Hid Hrun.
  destruct (run_columns _ _ _ _ _ _ _ _ Hid Hrun) as (sc & rest & Hc & Hout).
  destruct (identify_spec _ _ _ _ _ Hid) as (sc' & rest' & Hc' & Ham & _).
  rewrite Hc in Hc'. injection Hc' as <- <-.
  rewrite Hout, Hc. simpl. split_and!; [done..| |].
  - rewrite Ham. apply sorted_strongly.
  - intros Hnd. apply list.NoDup_cons in Hnd as [Hsc _].
    constructor. rewrite Ham, sorted_perm, Hc, filter_cons, decide_False
      by (intros Hn; by apply Hn).
    clear -Hsc. induction rest as [|c rest IH]; [done|].
    rewrite not_elem_of_cons in Hsc. destruct Hsc as [Hne Hsc].
    rewrite filter_cons, decide_True by done. constructor. by apply IH.
Qed.

Lemma output_columns_are_input_columns_witness :
  tail (columns (forecast_sample sample_standard).1)
  = ["2024-02"; "2024-03"; "2025-02"; "2025-03"].
Proof.
  refine (proj1 (proj2 (output_columns_are_input_columns sample_standard
            (months_of sample_standard) (actual_of sample_standard)
            (forecast_of sample_standard) (latest_of sample_standard)
            "2025-02" (forecast_sample sample_standard).1
            (forecast_sample sample_standard).2 _ _))).
  - sample_identify.
  - sample_calculate.
Defined.

(** X7. The warnings of a run.  The missing-data warning is logged for a
    label exactly when it is a month to forecast without its reference
    months.  The two warnings about the membership adjustment are logged
    only when the new-project-year month is to be forecast, the first for
    that month and a sheet with a MEMBERSHIP row, the second for a sheet
    without one; an ordinary month falls back to ratio 1 without a
    warning. *)
Theorem warnings_of_a_run
    (df : DataFrame) (all_months actual_months forecast_months : list string)
    (classified_latest : option string) (latest_actual : string)
    (out : DataFrame) (log : list warning) :
  identify_months_to_forecast df
  = Ok (all_months, actual_months, forecast_months, classified_latest) →
  calculate_forecasts df all_months forecast_months latest_actual
  = Ok (out, log) →
  (∀ P, MissingRequiredData P ∈ log
        ↔ P ∈ forecast_months ∧ ¬ has_references all_months P)
  ∧ (∀ P, DefaultMembershipAdjustment P ∈ log →
          P = SPECIAL_FORECAST_MONTH ∧ P ∈ forecast_months
          ∧ rows_named "MEMBERSHIP" df ≠ [])
  ∧ (NoMembershipRow ∈ log →
     SPECIAL_FORECAST_MONTH ∈ forecast_months
     ∧ rows_named "MEMBERSHIP" df = []).
Proof.
  intros Hid Hrun. split_and!.
  - intros P. split.
    + intros Hw.
      destruct (run_log _ _ _ _ _ _ _ _ Hid Hrun _ Hw)
        as [(Q & [= <-] & HQ & Hno)|[_ [[? _]|[? _]]]]; done.
    + intros [HP Hno]. by eapply run_log_missing.
  - intros P Hw.
    destruct (run_log _ _ _ _ _ _ _ _ Hid Hrun _ Hw)
      as [(Q & ? & _)|[Hin [[[= ->] Hne]|[? _]]]]; done.
  - intros Hw.
    destruct (run_log _ _ _ _ _ _ _ _ Hid Hrun _ Hw)
      as [(Q & ? & _)|[Hin [[? _]|[_ He]]]]; done.
Qed.

Lemma warnings_of_a_run_witness :
  MissingRequiredData "2025-01" ∈ (forecast_sample sample_skip).2
  ↔ "2025-01" ∈ forecast_of sample_skip
    ∧ ¬ has_references (months_of sample_skip) "2025-01".
Proof.
  refine (proj1 (warnings_of_a_run sample_skip
            (months_of sample_skip) (actual_of sample_skip)
            (forecast_of sample_skip) (latest_of sample_skip)
            "2024-12" (forecast_sample sample_skip).1
            (forecast_sample sample_skip).2 _ _) "2025-01").
  - sample_identify.
  - sample_calculate.
Defined.

(** X8. The forecast TOTAL is a whole number.  For a month the run
    forecasts (its reference months being columns) the cell of the TOTAL
    row in the output is a non-negative integer: the sum of the rounded,
    clamped values of the regions. *)
Theorem forecast_total_is_whole_number
    (df : DataFrame) (all_months actual_months forecast_months : list string)
    (classified_latest : option string) (latest_actual : string)
    (out : DataFrame) (log : list warning)
    (P : string) (total_idx : nat) (total : Row) :
  NoDup (columns df) →
  identify_months_to_forecast df
  = Ok (all_months, actual_months, forecast_months, classified_latest) →
  calculate_forecasts df all_months forecast_months latest_actual
  = Ok (out, log) →
  P ∈ forecast_months → has_references all_months P →
  list_find (λ r, state r = "TOTAL") (rows out) = Some (total_idx, total) →
  ∃ z, 0 ≤ z ∧ row_get total P = Num (Z2Qc z).
Proof.
  intros Hnd Hid Hrun HP Href Hfind.
  destruct (identify_months_sub _ _ _ _ _ Hid) as (_ & Hfsub & _).
  pose proof (written_total _ _ _ _ _ _ _ _ Hnd Hid Hrun P HP Href
                total_idx total Hfind) as Hsum.
  apply list_find_Some in Hfind as (Hlook & _ & _).
  destruct (run_numeric _ _ _ _ _ _ _ _ Hid Hrun total P) as [q Hq].
  { by eapply list_elem_of_lookup_2. }
  { by apply Hfsub. }
  rewrite Hq in Hsum. simpl in Hsum.
  destruct (column_sum_integer (ordinary_rows out) P) as (z & Hz & Hcol).
  { intros r Hr. unfold ordinary_rows in Hr.
    apply list_elem_of_filter in Hr as [Hres Hr].
    apply list_elem_of_lookup_1 in Hr as [idx Hidx].
    pose proof (run_states _ _ _ _ _ _ _ _ Hid Hrun) as Hstates.
    assert (Hsome : (state <$> rows df) !! idx = Some (state r)).
    { by rewrite <- Hstates, list_lookup_fmap, Hidx. }
    rewrite list_lookup_fmap in Hsome.
    destruct (rows df !! idx) as [row|] eqn:Hrow; [|done].
    injection Hsome as Hstate.
    destruct (written_nonnegative _ _ _ _ _ _ _ _ Hnd Hid Hrun P idx row
                HP Href Hrow) as (z & Hz & Hcell).
    { by rewrite Hstate. }
    exists z. split; [done|]. unfold cell_at in Hcell.
    by rewrite Hidx in Hcell. }
  exists z. split; [done|]. rewrite Hq. f_equal. congruence.
Qed.

Lemma forecast_total_is_whole_number_witness :
  ∃ z, 0 ≤ z
       ∧ row_get (sample_row "TOTAL"
                    [("2024-02", count 150); ("2024-03", count 140);
                     ("2025-02", count 110); ("2025-03", count 122)])
           "2025-03" = Num (Z2Qc z).
Proof.
  refine (forecast_total_is_whole_number sample_standard
            (months_of sample_standard) (actual_of sample_standard)
            (forecast_of sample_standard) (latest_of sample_standard)
            "2025-02" (forecast_sample sample_standard).1
            (forecast_sample sample_standard).2 "2025-03" 2%nat _
            _ _ _ _ _ _).
  - by_computation.
  - sample_identify.
  - sample_calculate.
  - by_computation.
  - by_computation.
  - by vm_compute.
Defined.

(** X9. The forecast sheet holds numbers only.  Written from the frame a
    run returns, the State Forecast sheet has one row per row of the frame,
    in order, and in it one cell per month column; every one of these
    cells is written as a number, so the placeholder text for an empty
    cell never appears. *)
Theorem forecast_sheet_holds_numbers
    (df : DataFrame) (all_months actual_months forecast_months : list string)
    (classified_latest : option string) (latest_actual : string)
    (out : DataFrame) (log : list warning) :
  identify_months_to_forecast df
  = Ok (all_months, actual_months, forecast_months, classified_latest) →
  calculate_forecasts df all_months forecast_months latest_actual
  = Ok (out, log) →
  write_forecast_excel out actual_months forecast_months
  = Ok (map (λ row,
               (state row,
                map (λ month,
                       MkSheetCell month
                         (choose_format (state row) month actual_months)
                         (write_number (num (row_get row month))))
                  all_months))
          (rows out))
  ∧ ∀ sheet, write_forecast_excel out actual_months forecast_months
             = Ok sheet →
      sheet.*1 = state <$> rows df
      ∧ Forall (λ entry, Forall (λ c, sheet_value c ≠ write_string "N/A")
                           entry.2) sheet.
Proof.
  intros Hid Hrun.
  destruct (run_columns _ _ _ _ _ _ _ _ Hid Hrun) as (sc & rest & _ & Hout).
  pose proof (run_numeric _ _ _ _ _ _ _ _ Hid Hrun) as Hnum.
  assert (Hsheet : write_forecast_excel out actual_months forecast_months
    = Ok (map (λ row,
               (state row,
                map (λ month,
                       MkSheetCell month
                         (choose_format (state row) month actual_months)
                         (write_number (num (row_get row month))))
                  all_months))
          (rows out))).
  { rewrite (sheet_rows out _ _ sc all_months Hout). f_equal.
    apply list_fmap_ext. intros idx row Hrow. f_equal.
    apply list_fmap_ext. intros k month Hmonth. f_equal.
    destruct (Hnum row month) as [q Hq].
    - by eapply list_elem_of_lookup_2.
    - by eapply list_elem_of_lookup_2.
    - by rewrite Hq. }
  split; [done|]. intros sheet Hs. rewrite Hsheet in Hs. injection Hs as <-.
  split.
  - rewrite <- (run_states _ _ _ _ _ _ _ _ Hid Hrun).
    rewrite <- list_fmap_compose. by apply list_fmap_ext.
  - apply Forall_fmap, list.Forall_forall. intros row _. simpl.
    apply Forall_fmap, list.Forall_forall. by intros month _.
Qed.

Lemma forecast_sheet_holds_numbers_witness :
  write_forecast_excel (forecast_sample sample_new_cycle).1
    (actual_of sample_new_cycle) (forecast_of sample_new_cycle)
  = Ok [ ("AL", [ MkSheetCell "2024-08" actual_format
                    (write_number (Z2Qc 200));
                  MkSheetCell "2025-07" actual_format
                    (write_number (Z2Qc 210));
                  MkSheetCell "2025-08" august_format
                    (write_number (Z2Qc 220)) ]);
         ("TOTAL", [ MkSheetCell "2024-08" total_actual_format
                       (write_number (Z2Qc 200));
                     MkSheetCell "2025-07" total_actual_format
                       (write_number (Z2Qc 210));
                     MkSheetCell "2025-08" total_august_format
                       (write_number (Z2Qc 220)) ]);
         ("MEMBERSHIP", [ MkSheetCell "2024-08" membership_format
                            (write_number (Z2Qc 1000));
                          MkSheetCell "2025-07" membership_format
                            (write_number (Z2Qc 1100));
                          MkSheetCell "2025-08" membership_format
                            (write_number (Z2Qc 0)) ]) ].
Proof.
  refine (eq_trans (proj1 (forecast_sheet_holds_numbers sample_new_cycle
            (months_of sample_new_cycle) (actual_of sample_new_cycle)
            (forecast_of sample_new_cycle) (latest_of sample_new_cycle)
            "2025-07" (forecast_sample sample_new_cycle).1
            (forecast_sample sample_new_cycle).2 _ _)) _).
  - sample_identify.
  - sample_calculate.
  - by_computation.
Defined.

(** X10. The cell formats follow the classification.  On a sheet with a
    TOTAL row, the format [write_forecast_excel] chooses for a month column
    is one of the two formats for actual data exactly when the month is
    not a month to forecast (outside the MEMBERSHIP rows, which have their
    own format); among the months to forecast the new-project-year month
    has its own pair of formats; and the bold variants are those of the
    TOTAL row. *)
Theorem sheet_formats_follow_classification
    (df : DataFrame) (all_months actual_months forecast_months : list string)
    (latest_actual : option string) (total : Row) (others : list Row)
    (name month : string) :
  identify_months_to_forecast df
  = Ok (all_months, actual_months, forecast_months, latest_actual) →
  rows_named "TOTAL" df = total :: others →
  month ∈ all_months →
  choose_format "MEMBERSHIP" month actual_months = membership_format
  ∧ (name ≠ "MEMBERSHIP" →
     (choose_format name month actual_months
        ∈ [actual_format; total_actual_format]
      ↔ month ∉ forecast_months)
     ∧ (choose_format name month actual_months
          ∈ [august_format; total_august_format]
        ↔ month ∈ forecast_months ∧ month = SPECIAL_FORECAST_MONTH)
     ∧ (choose_format name month actual_months
          ∈ [forecast_format; total_forecast_format]
        ↔ month ∈ forecast_months ∧ month ≠ SPECIAL_FORECAST_MONTH)
     ∧ (choose_format name month actual_months
          ∈ [total_actual_format; total_august_format; total_forecast_format]
        ↔ name = "TOTAL")).
Proof.
  intros Hid Htotal Hmonth.
  destruct (classified_once _ _ _ _ _ _ _ _ Hid Htotal Hmonth) as [Hact _].
  split; [done|]. intros Hname. unfold choose_format.
  rewrite (decide_False (P := name = "MEMBERSHIP")) by done.
  assert (Hfm : month ∈ forecast_months ↔ month ∉ actual_months).
  { destruct (decide (month ∈ forecast_months)) as [Hin|Hout].
    - split; [|done]. intros _ Ha. by apply Hact in Ha.
    - split; [done|]. intros Ha. by apply Hact in Hout. }
  rewrite Hfm. clear Hact Hfm.
  destruct (decide (name = "TOTAL")) as [Ht|Ht];
    destruct (decide (month ∈ actual_months)) as [Ha|Ha];
    destruct (decide (month = SPECIAL_FORECAST_MONTH)) as [Hs|Hs];
    rewrite !list.elem_of_cons, !elem_of_nil; intuition congruence.
Qed.

Lemma sheet_formats_follow_classification_witness :
  choose_format "AL" "2025-03" (actual_of sample_standard)
    ∈ [forecast_format; total_forecast_format]
  ↔ "2025-03" ∈ forecast_of sample_standard
    ∧ "2025-03" ≠ SPECIAL_FORECAST_MONTH.
Proof.
  refine (proj1 (proj2 (proj2 (proj2 (sheet_formats_follow_classification
            sample_standard
            (months_of sample_standard) (actual_of sample_standard)
            (forecast_of sample_standard) (latest_of sample_standard)
            (sample_row "TOTAL" [("2024-02", count 150); ("2024-03", count 140);
                                 ("2025-02", count 110); ("2025-03", count 0)])
            [] "AL" "2025-03" _ _ _) _)))).
  - sample_identify.
  - reflexivity.
  - by_computation.
  - done.
Defined.

(** ** The dictionary of counts *)

Section Counts.
Import Run_Actuals.

#[local] Opaque all_months.

Local Abbreviation file_step :=
  (λ (state_data : list (string * gmap string Qc)) (file : Extract),
     if decide (file_month file ∈ all_months) then
       fold_left (λ state_data '(st, count),
                    assign state_data st (file_month file) count)
         (group_sums (records file)) state_data
     else state_data).

Lemma count_of_assign state_data s m q st month :
  count_of (assign state_data s m q) st month
  = if decide (s = st ∧ m = month) then Some q
    else count_of state_data st month.
Proof.
  induction state_data as [|[s0 by_month] rest IH]; simpl.
  - destruct (decide (s = st)) as [->|Hs].
    + destruct (decide (m = month)) as [->|Hm].
      * rewrite lookup_singleton_eq. by rewrite decide_True.
      * rewrite lookup_singleton_ne by done. rewrite decide_False; [done|].
        by intros [_ ?].
    + rewrite decide_False; [done|]. by intros [? _].
  - destruct (decide (s0 = s)) as [->|Hs0]; simpl.
    + destruct (decide (s = st)) as [->|Hs].
      * destruct (decide (m = month)) as [->|Hm].
        -- rewrite lookup_insert_eq. by rewrite decide_True.
        -- rewrite lookup_insert_ne by done. rewrite decide_False; [done|].
           by intros [_ ?].
      * rewrite decide_False; [done|]. by intros [? _].
    + destruct (decide (s0 = st)) as [->|Hst].
      * rewrite decide_False; [done|]. intros [? _]. congruence.
      * apply IH.
Qed.

Lemma assign_fst state_data s m q :
  (assign state_data s m q).*1
  = if decide (s ∈ state_data.*1) then state_data.*1
    else state_data.*1 ++ [s].
Proof.
  induction state_data as [|[s0 by_month] rest IH].
  - cbn [assign]. rewrite decide_False; [done|]. apply not_elem_of_nil.
  - cbn [assign]. rewrite (fmap_cons fst (s0, by_month) rest). cbn [fst].
    destruct (decide (s0 = s)) as [->|Hs0].
    + rewrite fmap_cons. cbn [fst]. by rewrite decide_True by left.
    + rewrite fmap_cons, IH. cbn [fst].
      destruct (decide (s ∈ rest.*1)) as [Hin|Hout].
      * by rewrite decide_True by (by right).
      * rewrite decide_False; [done|].
        rewrite not_elem_of_cons. split; [congruence|done].
Qed.

Lemma assign_NoDup state_data s m q :
  NoDup state_data.*1 → NoDup (assign state_data s m q).*1.
Proof.
  intros Hnd. rewrite assign_fst.
  destruct (decide (s ∈ state_data.*1)); [done|].
  apply list.NoDup_app. split_and!; [done| |apply list.NoDup_singleton].
  intros x Hx Hs%list_elem_of_singleton. by subst.
Qed.

Lemma assign_elem state_data s m q x :
  x ∈ (assign state_data s m q).*1 ↔ x ∈ state_data.*1 ∨ x = s.
Proof.
  rewrite assign_fst. destruct (decide (s ∈ state_data.*1)) as [Hin|Hout].
  - split; [by left|]. by intros [?| ->].
  - rewrite elem_of_app, list_elem_of_singleton. done.
Qed.

Lemma count_of_entry state_data s by_month month :
  NoDup state_data.*1 → (s, by_month) ∈ state_data →
  count_of state_data s month = by_month !! month.
Proof.
  induction state_data as [|[s0 bm0] rest IH]; intros Hnd Hin.
  - by apply elem_of_nil in Hin.
  - simpl in *. apply list.NoDup_cons in Hnd as [Hs0 Hnd].
    apply list.elem_of_cons in Hin as [[= <- <-]|Hin].
    + by rewrite decide_True.
    + destruct (decide (s0 = s)) as [->|Hne]; [|by apply IH].
      destruct Hs0. apply list_elem_of_fmap. by exists (s, by_month).
Qed.

Lemma count_of_absent state_data st month :
  st ∉ state_data.*1 → count_of state_data st month = None.
Proof.
  induction state_data as [|[s0 bm0] rest IH]; intros Hout; [done|].
  simpl in *. rewrite not_elem_of_cons in Hout. destruct Hout as [Hne Hout].
  rewrite decide_False by done. by apply IH.
Qed.

(** The loop of line 102 for one workbook. *)
Lemma assign_groups_other (groups : list (string * Qc)) m state_data st month :
  m ≠ month ∨ st ∉ groups.*1 →
  count_of (fold_left (λ state_data '(st, count), assign state_data st m count)
              groups state_data) st month
  = count_of state_data st month.
Proof.
  revert state_data. induction groups as [|[s c] groups IH];
    intros state_data Hother; [done|].
  simpl. rewrite IH.
  - rewrite count_of_assign, decide_False; [done|].
    intros [-> ->]. destruct Hother as [?|Hout]; [done|].
    apply Hout. simpl. by left.
  - destruct Hother as [?|Hout]; [by left|]. right.
    simpl in Hout. rewrite not_elem_of_cons in Hout. by destruct Hout.
Qed.

Lemma assign_groups_found (groups : list (string * Qc)) m state_data st c :
  NoDup groups.*1 → (st, c) ∈ groups →
  count_of (fold_left (λ state_data '(st, count), assign state_data st m count)
              groups state_data) st m
  = Some c.
Proof.
  revert state_data. induction groups as [|[s0 c0] groups IH];
    intros state_data Hnd Hin.
  - by apply elem_of_nil in Hin.
  - simpl in *. apply list.NoDup_cons in Hnd as [Hs0 Hnd].
    apply list.elem_of_cons in Hin as [[= <- <-]|Hin].
    + rewrite assign_groups_other by (by right).
      rewrite count_of_assign. by rewrite decide_True.
    + by apply IH.
Qed.

Lemma assign_groups_keys (groups : list (string * Qc)) m state_data x :
  x ∈ (fold_left (λ state_data '(st, count), assign state_data st m count)
         groups state_data).*1
  ↔ x ∈ state_data.*1 ∨ x ∈ groups.*1.
Proof.
  revert state_data. induction groups as [|[s c] groups IH];
    intros state_data; simpl.
  - rewrite elem_of_nil. tauto.
  - rewrite IH, assign_elem, list.elem_of_cons. tauto.
Qed.

Lemma assign_groups_NoDup (groups : list (string * Qc)) m state_data :
  NoDup state_data.*1 →
  NoDup (fold_left (λ state_data '(st, count), assign state_data st m count)
           groups state_data).*1.
Proof.
  revert state_data. induction groups as [|[s c] groups IH];
    intros state_data Hnd; [done|].
  simpl. by apply IH, assign_NoDup.
Qed.

Lemma group_sums_fst (recs : list (string * cell)) :
  (group_sums recs).*1 = sorted (remove_dups recs.*1).
Proof.
  unfold group_sums.
  change (map ?f ?l).*1 with (fst <$> (f <$> l)).
  rewrite <- list_fmap_compose. simpl. apply list_fmap_id.
Qed.

Lemma group_sums_NoDup (recs : list (string * cell)) :
  NoDup (group_sums recs).*1.
Proof.
  rewrite group_sums_fst. apply NoDup_sorted, NoDup_remove_dups.
Qed.

Lemma group_sums_elem (recs : list (string * cell)) st c :
  (st, c) ∈ group_sums recs ↔ st ∈ recs.*1 ∧ c = state_sum recs st.
Proof.
  unfold group_sums.
  change (map ?f ?l) with (f <$> l).
  rewrite list_elem_of_fmap. split.
  - intros (s & [= -> ->] & Hs).
    rewrite elem_of_sorted, elem_of_remove_dups in Hs. done.
  - intros [Hin ->]. exists st. split; [done|].
    by rewrite elem_of_sorted, elem_of_remove_dups.
Qed.

Lemma group_sums_states (recs : list (string * cell)) st :
  st ∈ (group_sums recs).*1 ↔ st ∈ recs.*1.
Proof.
  by rewrite group_sums_fst, elem_of_sorted, elem_of_remove_dups.
Qed.

Lemma file_step_count state_data file st month :
  count_of (file_step state_data file) st month
  = if decide (file_month file = month ∧ month ∈ all_months
               ∧ st ∈ (records file).*1)
    then Some (state_sum (records file) st)
    else count_of state_data st month.
Proof.
  simpl. destruct (decide (file_month file ∈ all_months)) as [Hwin|Hwin].
  - destruct (decide (file_month file = month)) as [<-|Hm].
    + destruct (decide (st ∈ (records file).*1)) as [Hst|Hst].
      * rewrite decide_True by done.
        apply assign_groups_found; [apply group_sums_NoDup|].
        by apply group_sums_elem.
      * rewrite decide_False by tauto.
        apply assign_groups_other. right. by rewrite group_sums_states.
    + rewrite decide_False by tauto.
      apply assign_groups_other. by left.
  - rewrite decide_False; [done|]. intros (<- & ? & _). done.
Qed.

Lemma process_from_count (extracts : list Extract) state_data st month :
  count_of (fold_left file_step extracts state_data) st month
  = match latest_count extracts st month with
    | Some count => Some count
    | None => count_of state_data st month
    end.
Proof.
  revert state_data. induction extracts as [|file extracts IH];
    intros state_data; [done|].
  cbn [fold_left latest_count]. rewrite IH.
  destruct (latest_count extracts st month); [done|].
  rewrite file_step_count. by destruct (decide _).
Qed.

Lemma process_files_count (extracts : list Extract) st month :
  count_of (process_files extracts) st month = latest_count extracts st month.
Proof.
  unfold process_files. rewrite process_from_count.
  by destruct (latest_count extracts st month).
Qed.

Lemma process_from_keys (extracts : list Extract) state_data x :
  x ∈ (fold_left file_step extracts state_data).*1
  ↔ x ∈ state_data.*1
    ∨ ∃ file, file ∈ extracts ∧ file_month file ∈ all_months
              ∧ x ∈ (records file).*1.
Proof.
  revert state_data. induction extracts as [|file extracts IH];
    intros state_data.
  - simpl. split; [by left|]. intros [?|(? & ?%elem_of_nil & _)]; done.
  - cbn [fold_left]. rewrite IH. split.
    + intros [Hx|(f & Hf & Hwin & Hrec)].
      * destruct (decide (file_month file ∈ all_months)) as [Hwin|Hwin];
          [|by left].
        apply assign_groups_keys in Hx as [?|Hx]; [by left|].
        right. exists file. rewrite group_sums_states in Hx.
        split_and!; [by left|done..].
      * right. exists f. split_and!; [by right|done..].
    + intros [Hx|(f & Hf & Hwin & Hrec)].
      * left. destruct (decide (file_month file ∈ all_months)); [|done].
        apply assign_groups_keys. by left.
      * apply list.elem_of_cons in Hf as [->|Hf].
        -- left. rewrite decide_True by done.
           apply assign_groups_keys. right. by rewrite group_sums_states.
        -- right. by exists f.
Qed.

Lemma process_from_NoDup (extracts : list Extract) state_data :
  NoDup state_data.*1 → NoDup (fold_left file_step extracts state_data).*1.
Proof.
  revert state_data. induction extracts as [|file extracts IH];
    intros state_data Hnd; [done|].
  cbn [fold_left]. apply IH.
  destruct (decide (file_month file ∈ all_months)); [|done].
  by apply assign_groups_NoDup.
Qed.

Lemma process_files_NoDup (extracts : list Extract) :
  NoDup (process_files extracts).*1.
Proof. apply process_from_NoDup. constructor. Qed.

Lemma latest_count_window (extracts : list Extract) st month :
  month ∉ all_months → latest_count extracts st month = None.
Proof.
  intros Hout. induction extracts as [|file extracts IH]; [done|].
  simpl. rewrite IH. rewrite decide_False; [done|]. by intros (_ & ? & _).
Qed.

Lemma latest_count_unique (extracts : list Extract) file st :
  NoDup (file_month <$> extracts) → file ∈ extracts →
  file_month file ∈ all_months → st ∈ (records file).*1 →
  latest_count extracts st (file_month file)
  = Some (state_sum (records file) st).
Proof.
  intros Hnd Hin Hwin Hst.
  induction extracts as [|f extracts IH]; [by apply elem_of_nil in Hin|].
  rewrite fmap_cons in Hnd. apply list.NoDup_cons in Hnd as [Hf Hnd].
  apply list.elem_of_cons in Hin as [->|Hin].
  - simpl.
    assert (Hnone : latest_count extracts st (file_month f) = None).
    { clear -Hf. induction extracts as [|g extracts IH]; [done|].
      rewrite fmap_cons, not_elem_of_cons in Hf. destruct Hf as [Hne Hf].
      simpl. rewrite IH by done. rewrite decide_False; [done|].
      intros (? & _). congruence. }
    rewrite Hnone. by rewrite decide_True.
  - simpl. by rewrite IH.
Qed.

(** The rows of the states in the sheet. *)
Lemma state_rows_states (state_data : list (string * gmap string Qc)) :
  state <$> state_rows state_data = state_data.*1.
Proof.
  unfold state_rows. change (map ?f ?l) with (f <$> l).
  rewrite <- list_fmap_compose. apply list_fmap_ext. by intros i [s bm] _.
Qed.

Lemma state_rows_cell (state_data : list (string * gmap string Qc)) row month :
  NoDup state_data.*1 → row ∈ state_rows state_data →
  row_get row month
  = if decide (month ∈ all_months)
    then match count_of state_data (state row) month with
         | Some count => Num count
         | None => Str EmptyString
         end
    else NaN.
Proof.
  intros Hnd Hrow. unfold state_rows in Hrow.
  change (map ?f ?l) with (f <$> l) in Hrow.
  apply list_elem_of_fmap in Hrow as ([s bm] & -> & Hin).
  unfold row_get. cbn [cells state].
  rewrite (lookup_tabulate
             (λ month, match bm !! month with
                       | Some count => Num count
                       | None => Str EmptyString
                       end)).
  rewrite (count_of_entry _ _ bm) by done.
  by destruct (decide (month ∈ all_months)).
Qed.

End Counts.

(** ** From the actuals sheet to the forecast *)

Lemma window_months :
  sorted (filter (λ col, col ≠ "State") ("State" :: Run_Actuals.all_months))
  = Run_Actuals.all_months.
Proof. by vm_compute. Qed.


Section Pipeline.
Import Run_Actuals.

#[local] Opaque all_months.

Local Abbreviation read_row :=
  (λ r : Row, MkRow (state r)
                ((λ c, if is_blank c then NaN else c) <$> cells r)).

Lemma filter_ext_elem {A : Type} (P Q : A → Prop)
    `{!∀ x, Decision (P x)} `{!∀ x, Decision (Q x)} (l : list A) :
  (∀ x, x ∈ l → P x ↔ Q x) → filter P l = filter Q l.
Proof.
  induction l as [|x l IH]; intros Hext; [done|].
  rewrite !filter_cons.
  assert (Hx : P x ↔ Q x) by (apply Hext; left).
  rewrite IH by (intros y Hy; apply Hext; by right).
  destruct (decide (P x)) as [HP|HP], (decide (Q x)) as [HQ|HQ];
    try done; tauto.
Qed.

Lemma filter_state_map (name : string) (f : Row → Row) (l : list Row) :
  (∀ r, state (f r) = state r) →
  filter (λ r, state r = name) (map f l)
  = map f (filter (λ r, state r = name) l).
Proof.
  intros Hf. induction l as [|r l IH]; [done|].
  cbn [map]. rewrite !filter_cons, Hf, IH.
  by destruct (decide (state r = name)).
Qed.

Lemma filter_state_none (name : string) (l : list Row) :
  Forall (λ r, state r ≠ name) l → filter (λ r, state r = name) l = [].
Proof.
  induction 1 as [|r l Hr Hl IH]; [done|].
  by rewrite filter_cons, decide_False.
Qed.

Lemma state_rows_names (extracts : list Extract) (P : string → Prop) :
  Forall (λ file, Forall (λ rec, P rec.1) (records file)) extracts →
  Forall (λ r, P (state r)) (state_rows (process_files extracts)).
Proof.
  intros Hnames. pose proof (process_files_keys _ P Hnames) as Hkeys.
  unfold state_rows. apply Forall_fmap.
  eapply list.Forall_impl; [exact Hkeys|]. by intros [st by_month].
Qed.

Lemma final_df_total_row (extracts : list Extract)
    (mem_ref : option (gmap string cell)) :
  Forall (λ file, Forall (λ rec, rec.1 ≠ "TOTAL") (records file)) extracts →
  rows_named "TOTAL" (read_summary_file (final_df extracts mem_ref))
  = [read_row (totals_row (state_rows (process_files extracts)))].
Proof.
  intros Hnames. unfold rows_named, read_summary_file, final_df.
  cbn [rows]. rewrite filter_state_map by done.
  rewrite list.filter_app, filter_state_none
    by (by apply (state_rows_names _ (λ st, st ≠ "TOTAL"))).
  rewrite !filter_cons, filter_nil.
  rewrite decide_True by done. by rewrite decide_False by done.
Qed.


Lemma read_total_cell (state_df : list Row) (month : string) :
  month ∈ all_months →
  row_get (read_row (totals_row state_df)) month
  = Num (column_sum state_df month).
Proof.
  intros Hin. unfold row_get, totals_row. cbn [cells].
  rewrite lookup_fmap.
  rewrite (lookup_tabulate (λ month, Num (column_sum state_df month))).
  by rewrite decide_True.
Qed.


Lemma needs_forecast_num (q : Qc) :
  Run_Forecast.needs_forecast (Num q) = true ↔ q = 0%Qc.
Proof.
  unfold Run_Forecast.needs_forecast. simpl. apply bool_decide_eq_true.
Qed.

(** The classifier on the sheet of the first stage. *)
Lemma identify_final_df (extracts : list Extract)
    (mem_ref : option (gmap string cell)) :
  Forall (λ file, Forall (λ rec, rec.1 ≠ "TOTAL") (records file)) extracts →
  let state_df := state_rows (process_files extracts) in
  Run_Forecast.identify_months_to_forecast
    (read_summary_file (final_df extracts mem_ref))
  = Ok (all_months,
        filter (λ m, column_sum state_df m ≠ 0%Qc) all_months,
        filter (λ m, column_sum state_df m = 0%Qc) all_months,
        list.last (filter (λ m, column_sum state_df m ≠ 0%Qc) all_months)).
Proof.
  intros Hnames state_df.
  unfold Run_Forecast.identify_months_to_forecast.
  rewrite final_df_total_row by done.
  change (columns (read_summary_file (final_df extracts mem_ref)))
    with ("State" :: all_months).
  cbv beta iota zeta. rewrite window_months.
  rewrite (classify_fold _ []). rewrite !app_nil_l.
  fold state_df.
  rewrite (filter_ext_elem
             (λ m, Run_Forecast.needs_forecast
                     (row_get (read_row (totals_row state_df)) m) = false)
             (λ m, column_sum state_df m ≠ 0%Qc)).
  2:{ intros m Hm. rewrite read_total_cell by done.
      rewrite <- needs_forecast_num.
      by destruct (Run_Forecast.needs_forecast _). }
  rewrite (filter_ext_elem
             (λ m, Run_Forecast.needs_forecast
                     (row_get (read_row (totals_row state_df)) m) = true)
             (λ m, column_sum state_df m = 0%Qc)).
  2:{ intros m Hm. rewrite read_total_cell by done.
      apply needs_forecast_num. }
  done.
Qed.



End Pipeline.

(** ** The months of the window *)

Section Window.




End Window.

(** ** Sums over the states *)

Section GroupSums.
Import Run_Actuals.

Local Abbreviation sum_over g keys :=
  (foldr (λ (st : string) (acc : Qc), (g st + acc)%Qc) 0%Qc keys).

Lemma sum_over_zero (keys : list string) : sum_over (λ _, 0%Qc) keys = 0%Qc.
Proof. induction keys as [|k keys IH]; simpl; [done|]. rewrite IH. ring. Qed.

Lemma sum_over_add (g h : string → Qc) (keys : list string) :
  sum_over (λ st, (g st + h st)%Qc) keys
  = (sum_over g keys + sum_over h keys)%Qc.
Proof. induction keys as [|k keys IH]; simpl; [ring|]. rewrite IH. ring. Qed.

Lemma sum_over_ext (g h : string → Qc) (keys : list string) :
  (∀ st, g st = h st) → sum_over g keys = sum_over h keys.
Proof.
  intros Hext. induction keys as [|k keys IH]; simpl; [done|].
  by rewrite IH, Hext.
Qed.

Lemma sum_over_single (s : string) (x : Qc) (keys : list string) :
  NoDup keys →
  sum_over (λ st, if decide (s = st) then x else 0%Qc) keys
  = if decide (s ∈ keys) then x else 0%Qc.
Proof.
  induction 1 as [|k keys Hk Hnd IH]; cbn [foldr].
  - rewrite decide_False; [done|]. apply not_elem_of_nil.
  - rewrite IH. destruct (decide (s = k)) as [->|Hne].
    + rewrite (decide_True (P := k ∈ k :: keys)) by left.
      rewrite (decide_False (P := k ∈ keys)) by done. ring.
    + destruct (decide (s ∈ keys)) as [Hin|Hout].
      * rewrite (decide_True (P := s ∈ k :: keys)) by (by right). ring.
      * rewrite (decide_False (P := s ∈ k :: keys)); [ring|].
        rewrite not_elem_of_cons. done.
Qed.

Lemma state_sum_cons (s : string) (c : cell) (recs : list (string * cell))
    (st : string) :
  state_sum ((s, c) :: recs) st
  = ((if decide (s = st) then num (to_numeric_fillna c) else 0%Qc)
     + state_sum recs st)%Qc.
Proof.
  unfold state_sum. simpl. destruct (decide (s = st)); ring.
Qed.

Lemma state_sums_total (recs : list (string * cell)) (keys : list string) :
  NoDup keys → recs.*1 ⊆ keys →
  sum_over (state_sum recs) keys
  = foldr (λ rec acc, (num (to_numeric_fillna rec.2) + acc)%Qc) 0%Qc recs.
Proof.
  intros Hnd. induction recs as [|[s c] recs IH]; intros Hsub.
  - simpl. apply sum_over_zero.
  - rewrite (sum_over_ext _ _ keys (state_sum_cons s c recs)).
    rewrite sum_over_add, sum_over_single by done.
    rewrite decide_True by (apply Hsub; left).
    rewrite IH; [done|]. intros x Hx. apply Hsub. by right.
Qed.

Lemma group_sums_total (recs : list (string * cell)) :
  foldr (λ group acc, (group.2 + acc)%Qc) 0%Qc (group_sums recs)
  = sum_over (state_sum recs) (sorted (remove_dups recs.*1)).
Proof.
  unfold group_sums. change (map fst recs) with (recs.*1).
  generalize (sorted (remove_dups recs.*1)).
  intros keys. induction keys as [|k keys IH]; [done|].
  cbn [map foldr snd]. by rewrite IH.
Qed.

End GroupSums.

(** ** Column names of a source workbook *)

Section Columns.
Import Run_Actuals.

Lemma standardize_name_cases (col : string) :
  standardize_name col = "Ret_Vendor" ∨ standardize_name col = "Chartcount"
  ∨ standardize_name col = "State" ∨ standardize_name col = col.
Proof.
  unfold standardize_name.
  destruct (contains "vendor" _); [by left|].
  destruct (_ && _); [by right; left|].
  destruct (contains "state" _); [by right; right; left|].
  by right; right; right.
Qed.

Lemma standardize_name_idemp (col : string) :
  standardize_name (standardize_name col) = standardize_name col.
Proof.
  destruct (standardize_name_cases col) as [H|[H|[H|H]]]; rewrite H;
    [by vm_compute..|done].
Qed.

End Columns.

(** * Further properties of the actuals aggregator *)

(** X11. The last workbook of a month wins.  After the loop over the
    workbooks the entry for a state and a month is the sum of the counts of
    that state in the last workbook of that month that has a record of the
    state, and there is no entry when no workbook of the month has one or
    the month is outside the window.  So a second workbook for the same
    month replaces the count of the first for the states it lists; the two
    are not added.  With one workbook per month the entry is the sum of
    that workbook's counts for the state. *)
Theorem last_workbook_of_a_month_wins
    (extracts : list Run_Actuals.Extract) (st month : string) :
  count_of (Run_Actuals.process_files extracts) st month
  = latest_count extracts st month
  ∧ (month ∉ Run_Actuals.all_months →
     count_of (Run_Actuals.process_files extracts) st month = None)
  ∧ (∀ later,
       Run_Actuals.file_month later = month →
       month ∈ Run_Actuals.all_months →
       st ∈ (Run_Actuals.records later).*1 →
       count_of (Run_Actuals.process_files (extracts ++ [later])) st month
       = Some (state_sum (Run_Actuals.records later) st))
  ∧ (∀ file,
       NoDup (Run_Actuals.file_month <$> extracts) →
       file ∈ extracts →
       Run_Actuals.file_month file = month →
       month ∈ Run_Actuals.all_months →
       st ∈ (Run_Actuals.records file).*1 →
       count_of (Run_Actuals.process_files extracts) st month
       = Some (state_sum (Run_Actuals.records file) st)).
Proof.
  split_and!.
  - apply process_files_count.
  - intros Hout. rewrite process_files_count. by apply latest_count_window.
  - intros later Hmonth Hwin Hst. rewrite process_files_count.
    induction extracts as [|file rest IH]; simpl.
    + by rewrite decide_True.
    + by rewrite IH.
  - intros file Hnd Hin <- Hwin Hst. rewrite process_files_count.
    by apply latest_count_unique.
Qed.

Lemma last_workbook_of_a_month_wins_witness :
  count_of (Run_Actuals.process_files sample_same_month) "TX" "2023-08"
  = Some (Z2Qc 7).
Proof.
  refine (eq_trans
            (proj1 (proj2 (proj2 (last_workbook_of_a_month_wins
                      [Run_Actuals.MkExtract "2023-08" [("TX", count 5)]]
                      "TX" "2023-08")))
               (Run_Actuals.MkExtract "2023-08" [("TX", count 7)]) _ _ _) _).
  - reflexivity.
  - by_computation.
  - by_computation.
  - by_computation.
Defined.

(** X12. The cells of the actuals sheet.  In the row of a state, the cell
    of a month of the window holds the count of the last workbook of that
    month with a record of the state, and the blank string when there is
    none; the forecast stage reads the blank as NaN.  Every state with a
    record in a workbook of the window has exactly one row. *)
Theorem actuals_sheet_cells
    (extracts : list Run_Actuals.Extract) (row : Row) (month : string) :
  row ∈ Run_Actuals.state_rows (Run_Actuals.process_files extracts) →
  month ∈ Run_Actuals.all_months →
  row_get row month
  = match latest_count extracts (state row) month with
    | Some count => Num count
    | None => Str EmptyString
    end
  ∧ (∀ mem_ref idx,
       rows (Run_Actuals.final_df extracts mem_ref) !! idx = Some row →
       cell_at (read_summary_file (Run_Actuals.final_df extracts mem_ref))
         idx month
       = match latest_count extracts (state row) month with
         | Some count => Num count
         | None => NaN
         end)
  ∧ NoDup (state <$> Run_Actuals.state_rows
                       (Run_Actuals.process_files extracts))
  ∧ (∀ st, st ∈ state <$> Run_Actuals.state_rows
                            (Run_Actuals.process_files extracts)
           ↔ ∃ file, file ∈ extracts
                     ∧ Run_Actuals.file_month file ∈ Run_Actuals.all_months
                     ∧ st ∈ (Run_Actuals.records file).*1).
Proof.
  intros Hrow Hmonth.
  assert (Hcell : row_get row month
                  = match latest_count extracts (state row) month with
                    | Some count => Num count
                    | None => Str EmptyString
                    end).
  { rewrite (state_rows_cell (Run_Actuals.process_files extracts))
      by (done || apply process_files_NoDup).
    by rewrite decide_True, process_files_count by done. }
  split_and!.
  - done.
  - intros mem_ref idx Hidx. unfold cell_at, read_summary_file.
    cbn [rows]. rewrite list_lookup_fmap, Hidx. cbn [fmap option_fmap option_map].
    unfold row_get in *. cbn [cells]. rewrite lookup_fmap.
    destruct (cells row !! month) as [c|]; simpl in *.
    + rewrite Hcell. by destruct (latest_count extracts (state row) month).
    + by destruct (latest_count extracts (state row) month).
  - rewrite state_rows_states. apply process_files_NoDup.
  - intros st. rewrite state_rows_states.
    unfold Run_Actuals.process_files. rewrite process_from_keys.
    split; [|by right]. intros [Hin|?]; [|done].
    by apply elem_of_nil in Hin.
Qed.

Lemma actuals_sheet_cells_witness :
  row_get sample_state_row "2023-09" = Str EmptyString.
Proof.
  refine (eq_trans (proj1 (actuals_sheet_cells sample_extracts
                             sample_state_row "2023-09" _ _)) _).
  - apply (list_elem_of_lookup_2 _ 1%nat). by vm_compute.
  - by_computation.
  - by vm_compute.
Defined.

(** X13. The forecast stage on the sheet of the first stage.  When no
    source record names its state TOTAL, the classifier reads from the
    sheet exactly the months of the window, in their order; a month is to
    forecast exactly when the counts of the states sum to 0 in it (no
    workbook, or only zero counts), and actual otherwise. *)
Theorem forecast_stage_reads_actuals_sheet
    (extracts : list Run_Actuals.Extract) (mem_ref : option (gmap string cell)) :
  Forall (λ file, Forall (λ rec, rec.1 ≠ "TOTAL") (Run_Actuals.records file))
    extracts →
  ∃ actual_months forecast_months,
    identify_months_to_forecast
      (read_summary_file (Run_Actuals.final_df extracts mem_ref))
    = Ok (Run_Actuals.all_months, actual_months, forecast_months,
          list.last actual_months)
    ∧ (∀ month, month ∈ forecast_months
                ↔ month ∈ Run_Actuals.all_months
                  ∧ column_sum (Run_Actuals.state_rows
                                  (Run_Actuals.process_files extracts)) month
                    = 0%Qc)
    ∧ (∀ month, month ∈ actual_months
                ↔ month ∈ Run_Actuals.all_months
                  ∧ column_sum (Run_Actuals.state_rows
                                  (Run_Actuals.process_files extracts)) month
                    ≠ 0%Qc).
Proof.
  intros Hnames. eexists _, _. split; [by apply identify_final_df|].
  split; intros month; rewrite list_elem_of_filter; tauto.
Qed.

Lemma forecast_stage_reads_actuals_sheet_witness :
  ∃ actual_months forecast_months,
    identify_months_to_forecast sample_sheet
    = Ok (Run_Actuals.all_months, actual_months, forecast_months,
          list.last actual_months)
    ∧ (∀ month, month ∈ forecast_months
                ↔ month ∈ Run_Actuals.all_months
                  ∧ column_sum (Run_Actuals.state_rows
                                  (Run_Actuals.process_files sample_extracts))
                      month = 0%Qc)
    ∧ (∀ month, month ∈ actual_months
                ↔ month ∈ Run_Actuals.all_months
                  ∧ column_sum (Run_Actuals.state_rows
                                  (Run_Actuals.process_files sample_extracts))
                      month ≠ 0%Qc).
Proof.
  refine (forecast_stage_reads_actuals_sheet sample_extracts None _).
  by_computation.
Defined.







(** X17. [standardize_columns] is idempotent.  The three standard names
    are fixed by the renaming, so renaming twice is renaming once, and a
    workbook that already has the three required columns still has them
    after the renaming. *)
Theorem standardize_columns_idempotent (cols : list string) :
  Run_Actuals.standardize_columns (Run_Actuals.standardize_columns cols)
  = Run_Actuals.standardize_columns cols
  ∧ (Run_Actuals.has_required_columns cols = true →
     Run_Actuals.has_required_columns (Run_Actuals.standardize_columns cols)
     = true)
  ∧ (∀ col, col ∈ cols →
       Run_Actuals.standardize_name col
         ∈ Run_Actuals.standardize_columns cols).
Proof.
  split_and!.
  - unfold Run_Actuals.standardize_columns.
    change (map ?f ?l) with (f <$> l).
    rewrite <- list_fmap_compose. apply list_fmap_ext.
    intros i col _. apply standardize_name_idemp.
  - unfold Run_Actuals.has_required_columns.
    rewrite !bool_decide_eq_true. intros Hsub x Hx.
    unfold Run_Actuals.standardize_columns.
    change (map ?f ?l) with (f <$> l). apply list_elem_of_fmap.
    exists x. split; [|by apply Hsub].
    rewrite !list.elem_of_cons, elem_of_nil in Hx.
    destruct Hx as [-> | [-> | [-> | []]]]; by vm_compute.
  - intros col Hcol. unfold Run_Actuals.standardize_columns.
    change (map ?f ?l) with (f <$> l). apply list_elem_of_fmap. by exists col.
Qed.

Lemma standardize_columns_idempotent_witness :
  Run_Actuals.has_required_columns
    (Run_Actuals.standardize_columns ["Ret_Vendor"; "Chartcount"; "State"])
  = true.
Proof.
  refine (proj1 (proj2 (standardize_columns_idempotent
            ["Ret_Vendor"; "Chartcount"; "State"])) _).
  reflexivity.
Defined.

(** X18. The colours follow the project years.  On the label of a calendar
    month the comparisons of strings in [get_project_color] select the
    project year that runs from August to July: the colour of 2023 from
    August 2023 to July 2024, of 2024 and of 2025 for the two years after,
    and the fourth colour outside these three years; no month of the
    window of the sheet gets the fourth colour. *)
Theorem project_colors_follow_project_years (y m : Z) :
  1000 ≤ y ≤ 9999 → 1 ≤ m ≤ 12 →
  Run_Actuals.get_project_color (get_year_month_string y m)
  = (if bool_decide (12 * 2023 + 8 ≤ 12 * y + m ≤ 12 * 2024 + 7)
     then "#FFF2CC"
     else if bool_decide (12 * 2024 + 8 ≤ 12 * y + m ≤ 12 * 2025 + 7)
     then "#D9EAD3"
     else if bool_decide (12 * 2025 + 8 ≤ 12 * y + m ≤ 12 * 2026 + 7)
     then "#D0E0E3"
     else "#F4CCCC")
  ∧ Forall (λ month, Run_Actuals.get_project_color month ≠ "#F4CCCC")
      Run_Actuals.all_months.
Proof.
  intros Hy Hm. split; [|by_computation].
  assert (Hcmp : ∀ a b (s : string),
            s = get_year_month_string a b → 1000 ≤ a ≤ 9999 → 1 ≤ b ≤ 12 →
            (label_le s (get_year_month_string y m)
             ↔ 12 * a + b ≤ 12 * y + m)
            ∧ (label_le (get_year_month_string y m) s
               ↔ 12 * y + m ≤ 12 * a + b)).
  { intros a b s -> Ha Hb. split; by apply label_le_calendar. }
  destruct (Hcmp 2023 8 "2023-08") as [L1 _]; [by vm_compute|lia..|].
  destruct (Hcmp 2024 7 "2024-07") as [_ U1]; [by vm_compute|lia..|].
  destruct (Hcmp 2024 8 "2024-08") as [L2 _]; [by vm_compute|lia..|].
  destruct (Hcmp 2025 7 "2025-07") as [_ U2]; [by vm_compute|lia..|].
  destruct (Hcmp 2025 8 "2025-08") as [L3 _]; [by vm_compute|lia..|].
  destruct (Hcmp 2026 7 "2026-07") as [_ U3]; [by vm_compute|lia..|].
  unfold Run_Actuals.get_project_color.
  rewrite (bool_decide_ext _ (12 * 2023 + 8 ≤ 12 * y + m ≤ 12 * 2024 + 7))
    by (rewrite L1, U1; done).
  rewrite (bool_decide_ext (label_le "2024-08" _ ∧ _)
             (12 * 2024 + 8 ≤ 12 * y + m ≤ 12 * 2025 + 7))
    by (rewrite L2, U2; done).
  rewrite (bool_decide_ext (label_le "2025-08" _ ∧ _)
             (12 * 2025 + 8 ≤ 12 * y + m ≤ 12 * 2026 + 7))
    by (rewrite L3, U3; done).
  done.
Qed.

Lemma project_colors_follow_project_years_witness :
  Run_Actuals.get_project_color (get_year_month_string 2024 8) = "#D9EAD3".
Proof.
  refine (eq_trans (proj1 (project_colors_follow_project_years 2024 8 _ _)) _).
  - lia.
  - lia.
  - reflexivity.
Defined.

(** X19. [group_sums] keeps the counts.  The groups of one workbook come in
    the order of the names of the states, one group per state with a
    record; the sums of the groups add up to the sum of the counts of all
    records, a count that is blank, text or NaN counting as 0. *)
Theorem group_sums_keep_the_counts (recs : list (string * cell)) :
  StronglySorted label_le (Run_Actuals.group_sums recs).*1
  ∧ NoDup (Run_Actuals.group_sums recs).*1
  ∧ (∀ st, st ∈ (Run_Actuals.group_sums recs).*1 ↔ st ∈ recs.*1)
  ∧ (∀ st total, (st, total) ∈ Run_Actuals.group_sums recs →
       total = state_sum recs st)
  ∧ foldr (λ group acc, (group.2 + acc)%Qc) 0%Qc (Run_Actuals.group_sums recs)
    = foldr (λ rec acc, (num (to_numeric_fillna rec.2) + acc)%Qc) 0%Qc recs.
Proof.
  split_and!.
  - rewrite group_sums_fst. apply sorted_strongly.
  - apply group_sums_NoDup.
  - apply group_sums_states.
  - intros st total Hin. by apply group_sums_elem in Hin as [_ ->].
  - rewrite group_sums_total. apply state_sums_total.
    + apply NoDup_sorted, NoDup_remove_dups.
    + intros st Hst. by rewrite elem_of_sorted, elem_of_remove_dups.
Qed.
